(** * process_mods.py: the incremental mod-catalog pass

    A shallow embedding of [src/process_mods.py] and the properties of its
    single pass over the catalog: which entries are bucketed, when an archive
    is downloaded, when the status cache is written back.

    Conventions of the embedding.
    - Values read by [json.load] / [response.json()] are terms of [json];
      JSON numbers are the integers.  Floating-point numbers are left out,
      and with them NaN, the one value that is not equal to itself: a
      property that needs a timestamp to be equal to itself says so.
    - A Python [dict] is an association list in insertion order, read with
      [dict_get] and written with [dict_set] (assignment keeps the position
      of a key that is already there and appends a new one).
    - An uncaught Python exception ([AttributeError] on [.get] of a value
      that is not a dict, [KeyError], ...) ends the run: partial functions
      return [option], [None] being the crash.
    - The network and the archives on the local disk are an oracle [fetch]
      from the requests made so far and the address to the outcome of lines
      86-117; a state keeps the list of the requests made, which the program
      itself does not.
    - [main] is the pass over the catalog and what it hands to the writes
      of lines 129-148; [run] is the script on a working directory, a
      dictionary from file names to contents, in which a file that cannot
      be opened ends the run.

    The file has the embedding first, then the notions the properties are
    stated with and the data of the scenarios, then the lemmas and the
    theorems, the scenarios last. *)

From Stdlib Require Import ZArith List String Ascii Bool Arith Lia DecimalString.
Import ListNotations.
Open Scope list_scope.
Open Scope string_scope.

(** ** Python dictionaries *)

Module Dict.

Definition dict (V : Type) : Type := list (string * V).

Fixpoint dict_get {V} (k : string) (d : dict V) : option V :=
  match d with
  | [] => None
  | (k', v) :: d' => if String.eqb k k' then Some v else dict_get k d'
  end.

(** [d[k] = v] *)
Fixpoint dict_set {V} (k : string) (v : V) (d : dict V) : dict V :=
  match d with
  | [] => [(k, v)]
  | (k', v') :: d' =>
      if String.eqb k k' then (k', v) :: d' else (k', v') :: dict_set k v d'
  end.

(** [k in d] *)
Definition dict_mem {V} (k : string) (d : dict V) : bool :=
  match dict_get k d with Some _ => true | None => false end.

(** [d[k]] read for an in-place change of the value; [KeyError] when [k] is
    not a key. *)
Definition dict_update {V} (k : string) (f : V -> V) (d : dict V)
  : option (dict V) :=
  match dict_get k d with
  | Some v => Some (dict_set k (f v) d)
  | None => None
  end.

Definition keys {V} (d : dict V) : list string := map fst d.

End Dict.
Export Dict.

(** ** JSON values and the Python operations the script applies to them *)

#[local] Set Warnings "-register-all".

Inductive json : Type :=
| JNull
| JBool (b : bool)
| JNum (n : Z)
| JStr (s : string)
| JArr (l : list json)
| JObj (m : list (string * json)).

(** Truth value of an object, as [not x] / [if x] test it. *)
Definition truthy (j : json) : bool :=
  match j with
  | JNull => false
  | JBool b => b
  | JNum n => negb (n =? 0)%Z
  | JStr s => negb (String.eqb s EmptyString)
  | JArr l => match l with [] => false | _ => true end
  | JObj m => match m with [] => false | _ => true end
  end.

(** [a == b]: [True == 1] and [False == 0] hold, lists are compared
    position by position and dicts key by key, whatever their order. *)
Fixpoint py_eq (a b : json) {struct a} : bool :=
  match a, b with
  | JNull, JNull => true
  | JBool x, JBool y => Bool.eqb x y
  | JBool x, JNum n => (n =? Z.b2z x)%Z
  | JNum n, JBool x => (n =? Z.b2z x)%Z
  | JNum m, JNum n => (m =? n)%Z
  | JStr s, JStr t => String.eqb s t
  | JArr l, JArr l' =>
      (fix go (l l' : list json) {struct l} : bool :=
         match l, l' with
         | [], [] => true
         | x :: r, y :: r' => py_eq x y && go r r'
         | _, _ => false
         end) l l'
  | JObj m, JObj m' =>
      (List.length m =? List.length m')%nat &&
      (fix go (m : list (string * json)) {struct m} : bool :=
         match m with
         | [] => true
         | (k, v) :: r =>
             match dict_get k m' with
             | Some v' => py_eq v v' && go r
             | None => false
             end
         end) m
  | _, _ => false
  end.

(** [o.get(k, default)]; only a dict has [get]. *)
Definition py_get (o : json) (k : string) (default : json) : option json :=
  match o with
  | JObj m => Some (match dict_get k m with Some v => v | None => default end)
  | _ => None
  end.

(** *** [str] and [repr]

    Strings are read as the UTF-8 bytes of the Python string; bytes above
    127 stand for printable characters and are copied. *)

Definition dquote : ascii := ascii_of_nat 34.
Definition squote : ascii := ascii_of_nat 39.
Definition backslash : ascii := ascii_of_nat 92.

Definition hex_digit (n : nat) : ascii :=
  nth n (list_ascii_of_string "0123456789abcdef") "0"%char.

Definition repr_char (quote c : ascii) : string :=
  let n := nat_of_ascii c in
  if Ascii.eqb c quote || Ascii.eqb c backslash then String backslash (String c EmptyString)
  else if (n =? 9)%nat then String backslash "t"
  else if (n =? 10)%nat then String backslash "n"
  else if (n =? 13)%nat then String backslash "r"
  else if (n <? 32)%nat || (n =? 127)%nat then
    String backslash (String "x" (String (hex_digit (n / 16)) (String (hex_digit (n mod 16)) EmptyString)))
  else String c EmptyString.

Fixpoint has_char (c : ascii) (s : string) : bool :=
  match s with
  | EmptyString => false
  | String c' s' => Ascii.eqb c c' || has_char c s'
  end.

Fixpoint repr_chars (quote : ascii) (s : string) : string :=
  match s with
  | EmptyString => EmptyString
  | String c s' => repr_char quote c ++ repr_chars quote s'
  end.

Definition repr_str (s : string) : string :=
  let quote := if has_char squote s && negb (has_char dquote s) then dquote else squote in
  String quote (repr_chars quote s ++ String quote EmptyString).

Definition repr_int (n : Z) : string := NilZero.string_of_int (Z.to_int n).

Fixpoint py_repr (j : json) : string :=
  match j with
  | JNull => "None"
  | JBool true => "True"
  | JBool false => "False"
  | JNum n => repr_int n
  | JStr s => repr_str s
  | JArr l => "[" ++ String.concat ", " (map py_repr l) ++ "]"
  | JObj m =>
      "{" ++ String.concat ", "
               (map (fun kv : string * json =>
                       let (k, v) := kv in repr_str k ++ ": " ++ py_repr v) m)
          ++ "}"
  end.

(** [str(x)], which is also what [str.format] and an f-string insert. *)
Definition py_str (j : json) : string :=
  match j with
  | JStr s => s
  | _ => py_repr j
  end.

(** Pairwise distinct strings, as the keys of a Python [dict] are. *)
Fixpoint nodupb (l : list string) : bool :=
  match l with
  | [] => true
  | x :: r => negb (existsb (String.eqb x) r) && nodupb r
  end.

(** ** The script *)

Notation "x <- e ;; k" :=
  (match e with Some x => k | None => None end)
  (at level 61, e at next level, right associativity).

Definition SOURCE_URL : string := "https://onb.keristero.com/mod_list/".
Definition STATUS_FILE : string := "status_cache.json".

(** [MOD_DOWNLOAD_TEMPLATE.format(attachment_id)] *)
Definition MOD_DOWNLOAD_TEMPLATE (attachment_id : json) : string :=
  "https://onb.keristero.com/mods/" ++ py_str attachment_id ++ ".zip".

(** [s.endswith(suffix)] and [s[:-1]] *)
Definition endswith (s suffix : string) : bool :=
  let n := String.length s in
  let m := String.length suffix in
  (m <=? n)%nat && String.eqb (substring (n - m) m s) suffix.

Definition drop_last (s : string) : string :=
  substring 0 (String.length s - 1) s.

Definition get_singular_name (type_name : string) : string :=
  if endswith type_name "s" then drop_last type_name else type_name.

(** What lines 86-117 meet outside the program: [requests.get] raises, or
    answers with a status code; under status 200 the body is written to the
    zip file, hashed by [calculate_md5] and the file removed, which gives
    the digest or raises. *)
Inductive response : Type :=
| Raised
| Responded (status_code : Z) (hashed : option string).

Definition succeeded (r : response) : option string :=
  match r with
  | Responded code hashed => if (code =? 200)%Z then hashed else None
  | Raised => None
  end.

Definition failed (r : response) : bool :=
  match succeeded r with Some _ => false | None => true end.

(** One archive request: the catalog key of the entry it was made for, the
    address and the outcome. *)
Record download : Type := Download {
  entry_key : string;
  zip_url : string;
  outcome : response
}.

(** The variables of [main] that the loop changes, and the requests made. *)
Record state : Type := State {
  status_cache : json;
  type_buckets : dict (dict json);
  hash_buckets : dict (list string);
  updates_made : bool;
  downloads : list download
}.

(** Lines 52-58: the fields read from one catalog item. *)
Record fields : Type := Fields {
  mod_type : json;
  mod_id : json;
  attachment_id : json;
  timestamp : json
}.

Definition extract (item : json) : option fields :=
  data <- py_get item "data" (JObj []) ;;
  attachment_data <- py_get item "attachment_data" (JObj []) ;;
  mod_type <- py_get data "type" (JStr "unknown") ;;
  mod_id <- py_get data "id" JNull ;;
  attachment_id <- py_get attachment_data "attachment_id" JNull ;;
  timestamp <- py_get attachment_data "timestamp" JNull ;;
  Some (Fields mod_type mod_id attachment_id timestamp).

(** Line 61: [not mod_id or not attachment_id]. *)
Definition missing_ids (f : fields) : bool :=
  negb (truthy (mod_id f)) || negb (truthy (attachment_id f)).

(** Line 66; [endswith] exists on a string only. *)
Definition singular_of (f : fields) : option string :=
  match mod_type f with
  | JStr type_name => Some (get_singular_name type_name)
  | _ => None
  end.

(** Lines 67-69. *)
Definition init_buckets (singular_type : string) (st : state) : state :=
  if dict_mem singular_type (type_buckets st) then st
  else State (status_cache st)
             (dict_set singular_type [] (type_buckets st))
             (dict_set singular_type [] (hash_buckets st))
             (updates_made st) (downloads st).

(** Line 72. *)
Definition add_to_bucket (singular_type key : string) (item : json) (st : state)
  : option state :=
  tb <- dict_update singular_type (dict_set key item) (type_buckets st) ;;
  Some (State (status_cache st) tb (hash_buckets st) (updates_made st) (downloads st)).

(** Line 75: [status_cache.get(str(attachment_id))]. *)
Definition cache_lookup (cache : json) (attachment_id : json) : option json :=
  py_get cache (py_str attachment_id) JNull.

(** Line 80: [not cache_entry or cache_entry.get('timestamp') != timestamp];
    [or] does not evaluate its right side when the left one holds. *)
Definition needs_download (cache_entry timestamp : json) : option bool :=
  if negb (truthy cache_entry) then Some true
  else cached <- py_get cache_entry "timestamp" JNull ;;
       Some (negb (py_eq cached timestamp)).

Definition hash_line (current_md5 mod_id : json) : string :=
  py_str current_md5 ++ " " ++ py_str mod_id.

(** Lines 123-124. *)
Definition add_hash_line (singular_type : string) (current_md5 mod_id : json)
    (st : state) : option state :=
  if truthy current_md5 then
    hb <- dict_update singular_type
            (fun lines => (lines ++ [hash_line current_md5 mod_id])%list)
            (hash_buckets st) ;;
    Some (State (status_cache st) (type_buckets st) hb (updates_made st) (downloads st))
  else Some st.

(** Lines 103-108. *)
Definition cache_record (f : fields) (current_md5 : string) : json :=
  JObj [("timestamp", timestamp f); ("md5", JStr current_md5); ("id", mod_id f)].

Definition update_cache (f : fields) (current_md5 : string) (st : state)
  : option state :=
  match status_cache st with
  | JObj m =>
      Some (State (JObj (dict_set (py_str (attachment_id f)) (cache_record f current_md5) m))
                  (type_buckets st) (hash_buckets st) true (downloads st))
  | _ => None
  end.

Definition record_download (d : download) (st : state) : state :=
  State (status_cache st) (type_buckets st) (hash_buckets st) (updates_made st)
        (downloads st ++ [d])%list.

Section Run.

(** The remote archive endpoint and the local disk: the outcome of a request,
    given the requests made before it in this run. *)
Variable fetch : list download -> string -> response.

(** Lines 80-124, for an entry already in its bucket. *)
Definition resolve_hash (singular_type key : string) (f : fields) (st : state)
  : option state :=
  cache_entry <- cache_lookup (status_cache st) (attachment_id f) ;;
  stale <- needs_download cache_entry (timestamp f) ;;
  if stale : bool then
    let url := MOD_DOWNLOAD_TEMPLATE (attachment_id f) in
    let r := fetch (downloads st) url in
    let st := record_download (Download key url r) st in
    match succeeded r with
    | Some current_md5 =>
        st <- update_cache f current_md5 st ;;
        add_hash_line singular_type (JStr current_md5) (mod_id f) st
    | None => Some st
    end
  else
    current_md5 <- py_get cache_entry "md5" JNull ;;
    add_hash_line singular_type current_md5 (mod_id f) st.

(** The body of the loop of [main], lines 50-124. *)
Definition process_entry (st : state) (key : string) (item : json)
  : option state :=
  f <- extract item ;;
  if missing_ids f then Some st
  else
    singular_type <- singular_of f ;;
    st <- add_to_bucket singular_type key item (init_buckets singular_type st) ;;
    resolve_hash singular_type key f st.

Fixpoint process_all (st : state) (mod_list : dict json) : option state :=
  match mod_list with
  | [] => Some st
  | (key, item) :: rest =>
      st <- process_entry st key item ;;
      process_all st rest
  end.

(** What a run leaves: the cache as dumped (when it is dumped), the buckets
    behind the [<type>.json] and [<type>_hash.txt] files, and the requests. *)
Record outputs : Type := Outputs {
  saved_cache : option json;
  saved_json : dict (dict json);
  saved_hash : dict (list string);
  requested : list download
}.

(** Lines 36-48. *)
Definition initial (cache_file : option json) : state :=
  State (match cache_file with Some c => c | None => JObj [] end) [] [] false [].

(** Lines 129-148. *)
Definition save_outputs (st : state) : outputs :=
  Outputs (if updates_made st then Some (status_cache st) else None)
          (type_buckets st) (hash_buckets st) (downloads st).

(** [main]: [mod_list] is the answer of the catalog endpoint ([None] when
    the request or the parsing failed, and the run returns having written
    nothing), [cache_file] the content of the status file when it exists. *)
Definition main (mod_list : option json) (cache_file : option json)
  : option outputs :=
  match mod_list with
  | None => Some (Outputs None [] [] [])
  | Some (JObj entries) =>
      st <- process_all (initial cache_file) entries ;;
      Some (save_outputs st)
  | Some _ => None
  end.

End Run.

(** What a written file holds: a JSON document ([json.dump]) or text. *)
Inductive content : Type :=
| Json (j : json)
| Text (s : string).

Definition newline : string := String (ascii_of_nat 10) EmptyString.

Definition json_file (b : string * dict json) : string * content :=
  let (type_name, data_dict) := b in (type_name ++ ".json", Json (JObj data_dict)).

Definition hash_file (b : string * list string) : string * content :=
  let (type_name, lines) := b in
  (type_name ++ "_hash.txt", Text (String.concat newline lines)).

(** The per-type files of a run (lines 137-148), then all its files in the
    order they are written. *)
Definition output_files (o : outputs) : list (string * content) :=
  app (map json_file (saved_json o)) (map hash_file (saved_hash o)).

Definition written_files (o : outputs) : list (string * content) :=
  app (match saved_cache o with Some c => [(STATUS_FILE, Json c)] | None => [] end)
      (output_files o).

(** ** The working directory

    [main] above is the pass over the catalog and what lines 129-148 hand to
    the file system; [run] is the script on a directory.  The status file
    is read from the directory (lines 36-40) and the files are written to
    it one after the other, the status file first; a file that cannot be
    opened for writing makes [open] raise, which ends the run with the
    files written before it in place. *)

Definition disk : Type := dict content.

(** Lines 36-40: without a status file the cache is empty; [json.load]
    raises on a file that holds no JSON document. *)
Definition read_status (d : disk) : option (option json) :=
  match dict_get STATUS_FILE d with
  | None => Some None
  | Some (Json c) => Some (Some c)
  | Some (Text _) => None
  end.

(** How a run ends: the directory it leaves, the files it wrote in the
    order of the writes, and whether [main] returned rather than raised. *)
Record ending : Type := Ending {
  disk_after : disk;
  written : list (string * content);
  returned : bool
}.

Section Disk.

Variable fetch : list download -> string -> response.

(** Whether [open(name, 'w')] goes through in the directory. *)
Variable writable : string -> bool.

(** Lines 131-132, 139-140 and 146-147, in this order. *)
Fixpoint write_files (files : list (string * content)) (d : disk) : ending :=
  match files with
  | [] => Ending d [] true
  | (name, c) :: rest =>
      if writable name then
        let e := write_files rest (dict_set name c d) in
        Ending (disk_after e) ((name, c) :: written e) (returned e)
      else Ending d [] false
  end.

(** The script: a catalog that cannot be fetched ends it at line 33, before
    the status file is looked at. *)
Definition run (mod_list : option json) (d : disk) : ending :=
  match mod_list with
  | None => Ending d [] true
  | Some _ =>
      match read_status d with
      | None => Ending d [] false
      | Some cache_file =>
          match main fetch mod_list cache_file with
          | Some out => write_files (written_files out) d
          | None => Ending d [] false
          end
      end
  end.

End Disk.

(** * Notions the properties are stated with *)

(** The JSON bucket and the hash lines a state holds for a type; both are
    empty for a type the state has no bucket for. *)
Definition entries_of (singular_type : string) (st : state) : dict json :=
  match dict_get singular_type (type_buckets st) with Some b => b | None => [] end.

Definition lines_of (singular_type : string) (st : state) : list string :=
  match dict_get singular_type (hash_buckets st) with Some l => l | None => [] end.

(** Lines 67-69 create the two buckets of a type together: both tables
    have the same types, in the same order. *)
Definition aligned (st : state) : Prop :=
  keys (type_buckets st) = keys (hash_buckets st).

(** Lines 123-124 as a list: the line of a hash that is true for Python,
    nothing otherwise. *)
Definition new_lines (current_md5 mod_id : json) : list string :=
  if truthy current_md5 then [hash_line current_md5 mod_id] else [].

(** A field of the catalog or of the cache that is not there, or holds a
    value Python takes for false (null, false, 0, an empty string, list or
    object). *)
Definition absent_or_falsy (v : option json) : Prop :=
  match v with
  | None => True
  | Some j => truthy j = false
  end.

(** The record the cache holds for an attachment id: [cache_entry] of line
    75 when line 80 takes it for one ([not cache_entry] fails).  A key that
    is missing, or bound to null or to an empty object, gives no record. *)
Definition cached_record (cache attachment_id : json) : option json :=
  match cache_lookup cache attachment_id with
  | Some cache_entry => if truthy cache_entry then Some cache_entry else None
  | None => None
  end.

Section Outcomes.

Variable fetch : list download -> string -> response.

(** The three ways lines 74-124 end for an entry that is in its bucket:
    the cached hash is reused, a fresh one is downloaded, or the download
    fails and the entry is left ([continue]). *)
Inductive resolved (T key : string) (f : fields) (st st' : state) : Prop :=
| Reused cache_entry current_md5 :
    cache_lookup (status_cache st) (attachment_id f) = Some cache_entry ->
    needs_download cache_entry (timestamp f) = Some false ->
    py_get cache_entry "md5" JNull = Some current_md5 ->
    add_hash_line T current_md5 (mod_id f) st = Some st' ->
    resolved T key f st st'
| Refreshed cache_entry current_md5 m stc :
    cache_lookup (status_cache st) (attachment_id f) = Some cache_entry ->
    needs_download cache_entry (timestamp f) = Some true ->
    succeeded (fetch (downloads st) (MOD_DOWNLOAD_TEMPLATE (attachment_id f)))
      = Some current_md5 ->
    status_cache st = JObj m ->
    stc = State (JObj (dict_set (py_str (attachment_id f)) (cache_record f current_md5) m))
                (type_buckets st) (hash_buckets st) true
                (downloads st ++
                   [Download key (MOD_DOWNLOAD_TEMPLATE (attachment_id f))
                      (fetch (downloads st) (MOD_DOWNLOAD_TEMPLATE (attachment_id f)))])%list ->
    add_hash_line T (JStr current_md5) (mod_id f) stc = Some st' ->
    resolved T key f st st'
| Dropped cache_entry :
    cache_lookup (status_cache st) (attachment_id f) = Some cache_entry ->
    needs_download cache_entry (timestamp f) = Some true ->
    succeeded (fetch (downloads st) (MOD_DOWNLOAD_TEMPLATE (attachment_id f))) = None ->
    st' = record_download
            (Download key (MOD_DOWNLOAD_TEMPLATE (attachment_id f))
               (fetch (downloads st) (MOD_DOWNLOAD_TEMPLATE (attachment_id f)))) st ->
    resolved T key f st st'.

(** The request the loop body makes for an entry when it makes one. *)
Definition attempt (st : state) (key : string) (f : fields) : download :=
  Download key (MOD_DOWNLOAD_TEMPLATE (attachment_id f))
           (fetch (downloads st) (MOD_DOWNLOAD_TEMPLATE (attachment_id f))).

(** The three endings of [resolved], read on the state the loop body
    started from. *)
Inductive verdict (T key : string) (f : fields) (st st' : state) : Prop :=
| Hit cache_entry current_md5 :
    cache_lookup (status_cache st) (attachment_id f) = Some cache_entry ->
    needs_download cache_entry (timestamp f) = Some false ->
    py_get cache_entry "md5" JNull = Some current_md5 ->
    downloads st' = downloads st ->
    status_cache st' = status_cache st ->
    updates_made st' = updates_made st ->
    (forall T', lines_of T' st' =
                if String.eqb T' T
                then (lines_of T st ++ new_lines current_md5 (mod_id f))%list
                else lines_of T' st) ->
    verdict T key f st st'
| Fresh cache_entry current_md5 m :
    cache_lookup (status_cache st) (attachment_id f) = Some cache_entry ->
    needs_download cache_entry (timestamp f) = Some true ->
    succeeded (outcome (attempt st key f)) = Some current_md5 ->
    downloads st' = (downloads st ++ [attempt st key f])%list ->
    status_cache st = JObj m ->
    status_cache st' =
      JObj (dict_set (py_str (attachment_id f)) (cache_record f current_md5) m) ->
    updates_made st' = true ->
    (forall T', lines_of T' st' =
                if String.eqb T' T
                then (lines_of T st ++ new_lines (JStr current_md5) (mod_id f))%list
                else lines_of T' st) ->
    verdict T key f st st'
| Failure cache_entry :
    cache_lookup (status_cache st) (attachment_id f) = Some cache_entry ->
    needs_download cache_entry (timestamp f) = Some true ->
    succeeded (outcome (attempt st key f)) = None ->
    downloads st' = (downloads st ++ [attempt st key f])%list ->
    status_cache st' = status_cache st ->
    updates_made st' = updates_made st ->
    (forall T', lines_of T' st' = lines_of T' st) ->
    verdict T key f st st'.

End Outcomes.

(** Some request of the list went through: status 200, archive hashed. *)
Definition some_succeeded (l : list download) : bool :=
  existsb (fun d => negb (failed (outcome d))) l.

(** [item] is a valid entry (both ids present and true) whose normalized
    type is [T]. *)
Definition valid_of_type (item : json) (T : string) : Prop :=
  exists f, extract item = Some f /\ missing_ids f = false /\ singular_of f = Some T.

(** No bucket of the state holds the key. *)
Definition fresh_key (k : string) (st : state) : Prop :=
  forall T, dict_get k (entries_of T st) = None.

(** Where the hash of a new hash line comes from: the md5 of the record
    the cache held for the attachment, no request being made, or the
    digest of the archive just downloaded. *)
Inductive hash_source (fetch : list download -> string -> response)
    (st st' : state) (key : string) (f : fields) : json -> Prop :=
| Cached record current_md5 :
    downloads st' = downloads st ->
    cached_record (status_cache st) (attachment_id f) = Some record ->
    py_get record "md5" JNull = Some current_md5 ->
    hash_source fetch st st' key f current_md5
| Downloaded current_md5 :
    downloads st' = (downloads st ++ [attempt fetch st key f])%list ->
    succeeded (outcome (attempt fetch st key f)) = Some current_md5 ->
    hash_source fetch st st' key f (JStr current_md5).

Section JsonInduction.

Variable P : json -> Prop.
Hypothesis HNull : P JNull.
Hypothesis HBool : forall b, P (JBool b).
Hypothesis HNum : forall n, P (JNum n).
Hypothesis HStr : forall s, P (JStr s).
Hypothesis HArr : forall l, Forall P l -> P (JArr l).
Hypothesis HObj : forall m, Forall (fun kv => P (snd kv)) m -> P (JObj m).

Fixpoint json_nested_ind (j : json) : P j :=
  match j with
  | JNull => HNull
  | JBool b => HBool b
  | JNum n => HNum n
  | JStr s => HStr s
  | JArr l =>
      HArr l ((fix go (l : list json) : Forall P l :=
                 match l with
                 | [] => Forall_nil P
                 | x :: r => Forall_cons x (json_nested_ind x) (go r)
                 end) l)
  | JObj m =>
      HObj m ((fix go (m : list (string * json)) : Forall (fun kv => P (snd kv)) m :=
                 match m with
                 | [] => Forall_nil _
                 | (k, v) :: r =>
                     @Forall_cons _ (fun kv => P (snd kv)) (k, v) r
                                  (json_nested_ind v) (go r)
                 end) m)
  end.

End JsonInduction.

(** The archive endpoint answers a request the same way whenever it is
    made. *)
Definition stable (fetch : list download -> string -> response) : Prop :=
  forall h h' url, fetch h url = fetch h' url.

(** The cache keys of the valid entries of a catalog, in catalog order. *)
Definition attachment_key_of (item : json) : list string :=
  match extract item with
  | Some f => if missing_ids f then [] else [py_str (attachment_id f)]
  | None => []
  end.

Definition attachment_keys (entries : dict json) : list string :=
  flat_map (fun e => attachment_key_of (snd e)) entries.

(** [record.get(k)] on a record of the cache. *)
Definition record_field (k : string) (record : dict json) : json :=
  match dict_get k record with Some v => v | None => JNull end.

(** The valid entries that share an attachment id carry timestamps that
    are equal ([==]), unless the archive of that id cannot be had from the
    endpoint.  An entry shares its attachment id with itself: the
    timestamp of an entry whose archive can be had is equal to itself,
    which a NaN is not. *)
Definition agreeing_timestamps (fetch : list download -> string -> response)
    (entries : dict json) : Prop :=
  forall k item f k' item' f',
    In (k, item) entries -> In (k', item') entries ->
    extract item = Some f -> missing_ids f = false ->
    extract item' = Some f' -> missing_ids f' = false ->
    py_str (attachment_id f) = py_str (attachment_id f') ->
    py_eq (timestamp f) (timestamp f') = true \/
    forall h, succeeded (fetch h (MOD_DOWNLOAD_TEMPLATE (attachment_id f))) = None.

(** No valid entry has the normalized type [status_cache], whose JSON file
    would have the name of the status file. *)
Definition no_status_type (entries : dict json) : Prop :=
  forall k item, In (k, item) entries -> ~ valid_of_type item "status_cache".

(** What the claim of idempotence asks of two runs in a row on the
    directory [d], the second on the directory the first one left: the
    second run ends as the first did, does not write the status file,
    writes the files the first run wrote besides the status file, with the
    same contents, and leaves every file of the directory as the first run
    left it. *)
Definition second_run_is_silent (fetch : list download -> string -> response)
    (writable : string -> bool) (entries : dict json) (d : disk) : Prop :=
  let e1 := run fetch writable (Some (JObj entries)) d in
  let e2 := run fetch writable (Some (JObj entries)) (disk_after e1) in
  returned e2 = returned e1 /\
  ~ In STATUS_FILE (map fst (written e2)) /\
  (exists pre, written e1 = (pre ++ written e2)%list /\
               forall name, In name (map fst pre) -> name = STATUS_FILE) /\
  (forall name, dict_get name (disk_after e2) = dict_get name (disk_after e1)).

(** An item the loop body can read: an object whose [data] and
    [attachment_data], when there, are objects, and whose type is a string
    when the entry is valid. *)
Definition well_shaped (item : json) : Prop :=
  exists f, extract item = Some f /\
            (missing_ids f = false -> exists type_name, mod_type f = JStr type_name).

(** A status cache the loop body can read: an object whose values are
    objects, or null or empty. *)
Definition usable_cache (cache : json) : Prop :=
  exists m, cache = JObj m /\
            forall k v, dict_get k m = Some v -> truthy v = true -> exists r, v = JObj r.

Definition sample_item (type_name id attachment ts : string) : json :=
  JObj [("data", JObj [("type", JStr type_name); ("id", JStr id)]);
        ("attachment_data",
         JObj [("attachment_id", JStr attachment); ("timestamp", JStr ts)])].

Definition sample_md5 : string := "d41d8cd98f00b204e9800998ecf8427e".

(** An endpoint that serves every archive, and one that knows none. *)
Definition always_ok (_ : list download) (_ : string) : response :=
  Responded 200 (Some sample_md5).

Definition always_404 (_ : list download) (_ : string) : response :=
  Responded 404 None.

Definition p1 : json := sample_item "players" "p1" "a1" "t1".

Definition p1_request (r : response) : download :=
  Download "k" "https://onb.keristero.com/mods/a1.zip" r.

Definition p1_record : json :=
  JObj [("timestamp", JStr "t1"); ("md5", JStr sample_md5); ("id", JStr "p1")].

(** Two valid entries that share the attachment [a1] with different
    timestamps. *)
Definition shared_attachment : dict json :=
  [("k1", sample_item "players" "p1" "a1" "t1");
   ("k2", sample_item "players" "p2" "a1" "t2")].

Definition untyped : json :=
  JObj [("data", JObj [("id", JStr "p1")]);
        ("attachment_data",
         JObj [("attachment_id", JStr "a1"); ("timestamp", JStr "t1")])].

(** A cache whose record for [a1] has the timestamp and nothing else. *)
Definition bare_cache : json := JObj [("a1", JObj [("timestamp", JStr "t1")])].

(** The entry [p1] when the remote has a newer archive. *)
Definition p1_newer : json := sample_item "players" "p1" "a1" "t2".

(** A catalog whose only entry has a type that is normalized to the name of
    the status file without its extension. *)
Definition status_type : dict json :=
  [("k", sample_item "status_caches" "p1" "a1" "t1")].

(** Two valid entries that share the attachment [a1] and its timestamp. *)
Definition shared_archive : dict json :=
  [("k1", sample_item "players" "p1" "a1" "t1");
   ("k2", sample_item "skins" "s1" "a1" "t1")].

(** A directory in which every file can be opened for writing. *)
Definition any_file (_ : string) : bool := true.

(** ** [calculate_md5] *)

Section Md5.

(** [hashlib.md5]: the hash objects, a new one, [update] and [hexdigest]. *)
Variable md5 : Type.
Variable md5_new : md5.
Variable update : md5 -> list Byte.byte -> md5.
Variable hexdigest : md5 -> string.

(** [f.read(size)] on what is left of the file: the bytes read, at most
    [size] of them, and what is left after them. *)
Definition read (size : nat) (rest : list Byte.byte)
  : list Byte.byte * list Byte.byte :=
  (firstn size rest, skipn size rest).

(** Lines 15-16: [for chunk in iter(lambda: f.read(size), b"")] feeds the
    chunks to the hash until a read gives no byte; [reads] bounds the
    number of reads. *)
Fixpoint feed (size reads : nat) (hash_md5 : md5) (rest : list Byte.byte) : md5 :=
  match reads with
  | 0 => hash_md5
  | S reads' =>
      let (chunk, rest') := read size rest in
      match chunk with
      | [] => hash_md5
      | _ :: _ => feed size reads' (update hash_md5 chunk) rest'
      end
  end.

(** [calculate_md5] on the content of the file at [file_path]; a file of
    [n] bytes is read at most [n + 1] times. *)
Definition calculate_md5 (file : list Byte.byte) : string :=
  hexdigest (feed 4096 (S (List.length file)) md5_new file).

End Md5.

(** The normalized type of a valid entry: what line 66 computes for an item
    that line 61 does not skip. *)
Definition type_of_item (item : json) : option string :=
  match extract item with
  | Some f => if missing_ids f then None else singular_of f
  | None => None
  end.

Definition has_type (T : string) (e : string * json) : bool :=
  match type_of_item (snd e) with
  | Some T' => String.eqb T' T
  | None => false
  end.

(** A hash object that keeps the bytes it was fed, for the scenarios. *)
Definition kept_bytes_hexdigest (fed : list Byte.byte) : string :=
  string_of_list_byte fed.

(** * Properties *)

(** ** The Python operations on samples *)

Example py_str_samples :
  map py_str [JNull; JBool true; JNum (-12); JStr "a1";
              JArr [JNum 1; JStr "it's"; JObj [("k", JNull)]]]
  = ["None"; "True"; "-12"; "a1";
     String.concat EmptyString
       ["[1, "; String dquote "it's"; String dquote ", {'k': None}]"]].
Proof. reflexivity. Qed.

Example py_eq_samples :
  map (fun p => py_eq (fst p) (snd p))
      [(JBool true, JNum 1); (JNum 1, JStr "1"); (JNull, JNull);
       (JObj [("a", JNum 1); ("b", JNull)], JObj [("b", JNull); ("a", JNum 1)]);
       (JArr [JNum 1], JArr [JNum 1; JNum 2])]
  = [true; false; true; true; false].
Proof. reflexivity. Qed.

(** ** Dictionaries *)

Section DictFacts.
Context {V : Type}.
Implicit Types (d : dict V) (k : string) (v : V).

Lemma dict_get_set_same d k v : dict_get k (dict_set k v d) = Some v.
Proof.
  induction d as [|[k' v'] d IH]; simpl.
  - now rewrite String.eqb_refl.
  - destruct (String.eqb k k') eqn:E; simpl; rewrite E; auto.
Qed.

Lemma dict_get_set_other d k k' v :
  k' <> k -> dict_get k' (dict_set k v d) = dict_get k' d.
Proof.
  intros Hne. induction d as [|[k0 v0] d IH]; simpl.
  - apply String.eqb_neq in Hne. now rewrite Hne.
  - destruct (String.eqb k k0) eqn:E; simpl.
    + apply String.eqb_eq in E. subst k0.
      apply String.eqb_neq in Hne. now rewrite Hne.
    + now rewrite IH.
Qed.

Lemma dict_get_set d k k' v :
  dict_get k' (dict_set k v d) = if String.eqb k' k then Some v else dict_get k' d.
Proof.
  destruct (String.eqb_spec k' k) as [->|Hne].
  - apply dict_get_set_same.
  - now apply dict_get_set_other.
Qed.

Lemma dict_get_In d k v : dict_get k d = Some v -> In (k, v) d.
Proof.
  induction d as [|[k' v'] d IH]; simpl; [discriminate|].
  destruct (String.eqb_spec k k') as [->|Hne]; intros H.
  - injection H as ->. now left.
  - right. auto.
Qed.

Lemma dict_get_keys d k : In k (keys d) <-> exists v, dict_get k d = Some v.
Proof.
  unfold keys. induction d as [|[k' v'] d IH]; simpl.
  - split; [tauto | intros [v H]; discriminate].
  - destruct (String.eqb_spec k k') as [->|Hne].
    + split; [eauto | auto].
    + rewrite <- IH. split; [intros [H|H]; [congruence|exact H] | auto].
Qed.

Lemma dict_get_None_keys d k : dict_get k d = None <-> ~ In k (keys d).
Proof.
  rewrite dict_get_keys. destruct (dict_get k d) as [v|].
  - split; [discriminate | intros H; exfalso; apply H; eauto].
  - split; [intros _ [v H]; discriminate | reflexivity].
Qed.

Lemma In_dict_get d k v : NoDup (keys d) -> In (k, v) d -> dict_get k d = Some v.
Proof.
  unfold keys. induction d as [|[k' v'] d IH]; simpl; [tauto|].
  intros Hnd [H|H]; inversion Hnd as [|? ? Hnotin Hnd']; subst.
  - injection H as -> ->. now rewrite String.eqb_refl.
  - destruct (String.eqb_spec k k') as [->|Hne]; [|auto].
    exfalso. apply Hnotin. change k' with (fst (k', v)). now apply in_map.
Qed.

Lemma keys_dict_set d k v :
  keys (dict_set k v d) = if dict_mem k d then keys d else (keys d ++ [k])%list.
Proof.
  unfold dict_mem, keys. induction d as [|[k' v'] d IH]; simpl; [reflexivity|].
  destruct (String.eqb k k') eqn:E; simpl; [reflexivity|].
  rewrite IH. now destruct (dict_get k d).
Qed.

Lemma length_dict_set d k v :
  List.length (dict_set k v d) = if dict_mem k d then List.length d else S (List.length d).
Proof.
  rewrite <- !(length_map fst). fold (keys (dict_set k v d)). fold (keys d).
  rewrite keys_dict_set. destruct (dict_mem k d); [reflexivity|].
  rewrite length_app. simpl. lia.
Qed.

Lemma dict_mem_keys d k : dict_mem k d = true <-> In k (keys d).
Proof.
  unfold dict_mem. rewrite dict_get_keys. destruct (dict_get k d).
  - split; eauto.
  - split; [discriminate | intros [v H]; discriminate].
Qed.

Lemma dict_mem_false d k : dict_mem k d = false <-> dict_get k d = None.
Proof. unfold dict_mem. destruct (dict_get k d); split; congruence. Qed.

Lemma NoDup_keys_dict_set d k v : NoDup (keys d) -> NoDup (keys (dict_set k v d)).
Proof.
  intros H. rewrite keys_dict_set. destruct (dict_mem k d) eqn:E; [exact H|].
  apply dict_mem_false, dict_get_None_keys in E.
  apply NoDup_app; [exact H | repeat constructor; simpl; tauto |].
  intros x Hx [<-|[]]. contradiction.
Qed.

End DictFacts.

(** ** What a state holds for one type *)

Lemma keys_eq_mem {A B} (d : dict A) (d' : dict B) k :
  keys d = keys d' -> dict_mem k d = dict_mem k d'.
Proof.
  intros H. destruct (dict_mem k d') eqn:E.
  - apply dict_mem_keys. rewrite H. now apply dict_mem_keys.
  - destruct (dict_mem k d) eqn:E'; [|reflexivity].
    apply dict_mem_keys in E'. rewrite H in E'. apply dict_mem_keys in E'. congruence.
Qed.

Lemma keys_set_present {A} (d : dict A) k v :
  dict_mem k d = true -> keys (dict_set k v d) = keys d.
Proof. intros H. now rewrite keys_dict_set, H. Qed.

(** *** Lines 67-69 *)

Lemma init_buckets_frame T st :
  status_cache (init_buckets T st) = status_cache st /\
  updates_made (init_buckets T st) = updates_made st /\
  downloads (init_buckets T st) = downloads st.
Proof. unfold init_buckets. destruct (dict_mem T (type_buckets st)); auto. Qed.

Lemma init_buckets_mem T st :
  dict_mem T (type_buckets (init_buckets T st)) = true.
Proof.
  unfold init_buckets. destruct (dict_mem T (type_buckets st)) eqn:E; [exact E|].
  simpl. unfold dict_mem. now rewrite dict_get_set_same.
Qed.

Lemma init_buckets_aligned T st : aligned st -> aligned (init_buckets T st).
Proof.
  unfold aligned, init_buckets. intros H.
  destruct (dict_mem T (type_buckets st)) eqn:E; [exact H|]. simpl.
  rewrite !keys_dict_set, <- (keys_eq_mem _ _ T H), E. now rewrite H.
Qed.

Lemma init_buckets_entries T T' st :
  entries_of T' (init_buckets T st) = entries_of T' st.
Proof.
  unfold entries_of, init_buckets.
  destruct (dict_mem T (type_buckets st)) eqn:E; [reflexivity|]. simpl.
  rewrite dict_get_set. destruct (String.eqb_spec T' T) as [->|]; [|reflexivity].
  apply dict_mem_false in E. now rewrite E.
Qed.

Lemma init_buckets_lines T T' st :
  aligned st -> lines_of T' (init_buckets T st) = lines_of T' st.
Proof.
  unfold lines_of, init_buckets. intros H.
  destruct (dict_mem T (type_buckets st)) eqn:E; [reflexivity|]. simpl.
  rewrite dict_get_set. destruct (String.eqb_spec T' T) as [->|]; [|reflexivity].
  rewrite (keys_eq_mem _ _ T H) in E. apply dict_mem_false in E. now rewrite E.
Qed.

(** *** Line 72 *)

Lemma add_to_bucket_inv T key item st st' :
  add_to_bucket T key item st = Some st' ->
  type_buckets st' = dict_set T (dict_set key item (entries_of T st)) (type_buckets st) /\
  dict_mem T (type_buckets st) = true /\
  hash_buckets st' = hash_buckets st /\ status_cache st' = status_cache st /\
  updates_made st' = updates_made st /\ downloads st' = downloads st.
Proof.
  unfold add_to_bucket, dict_update, entries_of, dict_mem.
  destruct (dict_get T (type_buckets st)); [|discriminate].
  intros H. injection H as <-. simpl. auto 6.
Qed.

Lemma add_to_bucket_total T key item st :
  dict_mem T (type_buckets st) = true ->
  exists st', add_to_bucket T key item st = Some st'.
Proof.
  unfold add_to_bucket, dict_update, dict_mem.
  destruct (dict_get T (type_buckets st)); [eauto | discriminate].
Qed.

Lemma add_to_bucket_entries T T' key item st st' :
  add_to_bucket T key item st = Some st' ->
  entries_of T' st' =
  if String.eqb T' T then dict_set key item (entries_of T st) else entries_of T' st.
Proof.
  intros H. apply add_to_bucket_inv in H as (Htb & _).
  unfold entries_of at 1. rewrite Htb, dict_get_set.
  now destruct (String.eqb T' T).
Qed.

Lemma add_to_bucket_aligned T key item st st' :
  add_to_bucket T key item st = Some st' -> aligned st -> aligned st'.
Proof.
  intros H. apply add_to_bucket_inv in H as (Htb & Hmem & Hhb & _).
  unfold aligned. rewrite Htb, Hhb, keys_set_present; auto.
Qed.

(** *** Lines 123-124 *)

Lemma add_hash_line_inv T h id st st' :
  add_hash_line T h id st = Some st' ->
  type_buckets st' = type_buckets st /\ status_cache st' = status_cache st /\
  updates_made st' = updates_made st /\ downloads st' = downloads st /\
  keys (hash_buckets st') = keys (hash_buckets st) /\
  forall T', lines_of T' st' =
             if String.eqb T' T then (lines_of T st ++ new_lines h id)%list
             else lines_of T' st.
Proof.
  unfold add_hash_line, new_lines, dict_update, lines_of.
  destruct (truthy h).
  - destruct (dict_get T (hash_buckets st)) as [l|] eqn:E; [|discriminate].
    intros H. injection H as <-. simpl. repeat split; auto.
    + apply keys_set_present. unfold dict_mem. now rewrite E.
    + intros T'. rewrite dict_get_set.
      destruct (String.eqb_spec T' T) as [->|]; reflexivity.
  - intros H. injection H as <-. repeat split; auto.
    intros T'. destruct (String.eqb_spec T' T) as [->|]; [|reflexivity].
    now rewrite app_nil_r.
Qed.

Lemma add_hash_line_total T h id st :
  dict_mem T (hash_buckets st) = true ->
  exists st', add_hash_line T h id st = Some st'.
Proof.
  unfold add_hash_line, dict_update, dict_mem.
  destruct (truthy h); [|eauto].
  destruct (dict_get T (hash_buckets st)); [eauto | discriminate].
Qed.

(** ** One pass of the loop body *)

Section Step.

Variable fetch : list download -> string -> response.

Lemma resolve_hash_inv T key f st st' :
  resolve_hash fetch T key f st = Some st' -> resolved fetch T key f st st'.
Proof.
  unfold resolve_hash.
  destruct (cache_lookup (status_cache st) (attachment_id f)) as [cache_entry|] eqn:Hc;
    [|discriminate].
  destruct (needs_download cache_entry (timestamp f)) as [[|]|] eqn:Hn; [| |discriminate].
  - destruct (succeeded _) as [current_md5|] eqn:Hs.
    + unfold update_cache. simpl.
      destruct (status_cache st) as [| | | | |m] eqn:Hm; try discriminate.
      intros H. rewrite <- Hm in Hc.
      eapply Refreshed with (m := m); eauto.
    + intros H. injection H as <-. eapply Dropped; eauto.
  - destruct (py_get cache_entry "md5" JNull) as [current_md5|] eqn:Hg; [|discriminate].
    intros H. eapply Reused; eauto.
Qed.

(** The loop body either skips the entry, or puts it in its bucket and
    resolves its hash. *)
Lemma process_entry_inv st key item st' :
  process_entry fetch st key item = Some st' ->
  exists f, extract item = Some f /\
    (missing_ids f = true /\ st' = st \/
     missing_ids f = false /\
     exists T st1, singular_of f = Some T /\
       add_to_bucket T key item (init_buckets T st) = Some st1 /\
       resolved fetch T key f st1 st').
Proof.
  unfold process_entry.
  destruct (extract item) as [f|]; [|discriminate].
  intros H. exists f. split; [reflexivity|].
  destruct (missing_ids f).
  - left. injection H as <-. auto.
  - right. split; [reflexivity|].
    destruct (singular_of f) as [T|]; [|discriminate].
    destruct (add_to_bucket T key item (init_buckets T st)) as [st1|] eqn:Hb; [|discriminate].
    exists T, st1. auto using resolve_hash_inv.
Qed.

(** State after lines 66-72. *)
Lemma bucketed_frame T key item st st1 :
  add_to_bucket T key item (init_buckets T st) = Some st1 ->
  status_cache st1 = status_cache st /\ updates_made st1 = updates_made st /\
  downloads st1 = downloads st /\
  (forall T', entries_of T' st1 =
              if String.eqb T' T then dict_set key item (entries_of T st)
              else entries_of T' st) /\
  (aligned st -> aligned st1 /\ forall T', lines_of T' st1 = lines_of T' st).
Proof.
  intros H. pose proof (add_to_bucket_inv _ _ _ _ _ H) as (_ & _ & Hhb & Hc & Hu & Hd).
  destruct (init_buckets_frame T st) as (Hc' & Hu' & Hd').
  repeat split; try congruence.
  - intros T'. rewrite (add_to_bucket_entries _ _ _ _ _ _ H), !init_buckets_entries.
    reflexivity.
  - eapply add_to_bucket_aligned; eauto using init_buckets_aligned.
  - intros T'. unfold lines_of at 1. rewrite Hhb.
    now apply init_buckets_lines.
Qed.

(** What a resolution changes. *)
Lemma resolved_frame T key f st st' :
  resolved fetch T key f st st' ->
  type_buckets st' = type_buckets st /\
  keys (hash_buckets st') = keys (hash_buckets st) /\
  (forall T', T' <> T -> lines_of T' st' = lines_of T' st).
Proof.
  intros [ce h Hc Hn Hg Hl | ce h m stc Hc Hn Hs Hm -> Hl | ce Hc Hn Hs ->].
  - apply add_hash_line_inv in Hl as (? & _ & _ & _ & ? & Hl).
    repeat split; auto. intros T' HT. rewrite Hl.
    apply String.eqb_neq in HT. now rewrite HT.
  - apply add_hash_line_inv in Hl as (? & _ & _ & _ & ? & Hl).
    repeat split; auto. intros T' HT. rewrite Hl.
    apply String.eqb_neq in HT. now rewrite HT.
  - repeat split; auto.
Qed.

Lemma process_entry_aligned st key item st' :
  process_entry fetch st key item = Some st' -> aligned st -> aligned st'.
Proof.
  intros H Ha. apply process_entry_inv in H as (f & _ & [[_ ->]|(_ & T & st1 & _ & Hb & Hr)]);
    [exact Ha|].
  apply bucketed_frame in Hb as (_ & _ & _ & _ & Hb). destruct (Hb Ha) as [Ha1 _].
  apply resolved_frame in Hr as (Htb & Hk & _).
  unfold aligned in *. now rewrite Htb, Hk.
Qed.

Lemma process_all_aligned entries : forall st st',
  process_all fetch st entries = Some st' -> aligned st -> aligned st'.
Proof.
  induction entries as [|[key item] rest IH]; simpl; intros st st' H Ha.
  - now injection H as <-.
  - destruct (process_entry fetch st key item) as [st1|] eqn:E; [|discriminate].
    eauto using process_entry_aligned.
Qed.

Lemma process_all_app l1 l2 : forall st,
  process_all fetch st (l1 ++ l2)%list =
  match process_all fetch st l1 with
  | Some st1 => process_all fetch st1 l2
  | None => None
  end.
Proof.
  induction l1 as [|[key item] l1 IH]; simpl; intros st; [reflexivity|].
  destruct (process_entry fetch st key item); auto.
Qed.

End Step.

Lemma initial_aligned cache_file : aligned (initial cache_file).
Proof. reflexivity. Qed.

(** ** Claims about one catalog entry *)

Lemma app_tail_neq {A} (l : list A) (d : A) : l <> (l ++ [d])%list.
Proof.
  intros H. apply (f_equal (@List.length A)) in H.
  rewrite length_app in H. simpl in H. lia.
Qed.

Section EntryClaims.

Variable fetch : list download -> string -> response.

Lemma valid_entry_inv st key item f st' :
  aligned st -> extract item = Some f -> missing_ids f = false ->
  process_entry fetch st key item = Some st' ->
  exists T, singular_of f = Some T /\
    (forall T', entries_of T' st' =
                if String.eqb T' T then dict_set key item (entries_of T st)
                else entries_of T' st) /\
    verdict fetch T key f st st'.
Proof.
  intros Ha Hf Hv H.
  apply process_entry_inv in H as (f' & Hf' & [[Hm _]|(_ & T & st1 & HT & Hb & Hr)]);
    rewrite Hf in Hf'; injection Hf' as <-; [congruence|].
  exists T. split; [exact HT|].
  apply bucketed_frame in Hb as (Hc & Hu & Hd & He & Hl). destruct (Hl Ha) as [_ Hl1].
  pose proof (resolved_frame _ _ _ _ _ _ Hr) as (Htb & _ & _).
  split.
  - intros T'. rewrite <- He. unfold entries_of. now rewrite Htb.
  - destruct Hr as [ce h Hce Hn Hg Hadd | ce h m stc Hce Hn Hs Hm -> Hadd | ce Hce Hn Hs ->].
    + apply add_hash_line_inv in Hadd as (_ & Hc' & Hu' & Hd' & _ & Hl').
      eapply Hit; eauto; try congruence.
      intros T'. rewrite Hl', !Hl1. reflexivity.
    + apply add_hash_line_inv in Hadd as (_ & Hc' & Hu' & Hd' & _ & Hl').
      simpl in Hc', Hu', Hd'.
      eapply Fresh with (m := m); eauto; unfold attempt; simpl; try congruence.
      intros T'. rewrite Hl'.
      pose proof (Hl1 T) as HlT. pose proof (Hl1 T') as HlT'.
      unfold lines_of in *. simpl. now rewrite HlT, HlT'.
    + eapply Failure; eauto; unfold attempt, record_download; simpl; try congruence.
Qed.

End EntryClaims.

Lemma needs_download_true cache_entry ts :
  needs_download cache_entry ts = Some true <->
  truthy cache_entry = false \/
  truthy cache_entry = true /\
  exists cached, py_get cache_entry "timestamp" JNull = Some cached /\
                 py_eq cached ts = false.
Proof.
  unfold needs_download. destruct (truthy cache_entry); simpl.
  - destruct (py_get cache_entry "timestamp" JNull) as [cached|].
    + destruct (py_eq cached ts) eqn:E; simpl; split.
      * discriminate.
      * intros [H|(_ & c & Hc & Hne)]; [discriminate|]. congruence.
      * intros _. right. eauto.
      * reflexivity.
    + split; [discriminate|]. intros [H|(_ & c & Hc & _)]; discriminate.
  - split; auto.
Qed.

Lemma needs_download_false cache_entry ts :
  needs_download cache_entry ts = Some false <->
  truthy cache_entry = true /\
  exists cached, py_get cache_entry "timestamp" JNull = Some cached /\
                 py_eq cached ts = true.
Proof.
  unfold needs_download. destruct (truthy cache_entry); simpl.
  - destruct (py_get cache_entry "timestamp" JNull) as [cached|].
    + destruct (py_eq cached ts) eqn:E; simpl; split.
      * intros _. eauto.
      * reflexivity.
      * discriminate.
      * intros (_ & c & Hc & He). congruence.
    + split; [discriminate|]. intros (_ & c & Hc & _). discriminate.
  - split; [discriminate|]. intros [H _]. discriminate.
Qed.

Lemma extract_obj item data attachment_data :
  py_get item "data" (JObj []) = Some (JObj data) ->
  py_get item "attachment_data" (JObj []) = Some (JObj attachment_data) ->
  extract item =
  Some (Fields
          (match dict_get "type" data with Some v => v | None => JStr "unknown" end)
          (match dict_get "id" data with Some v => v | None => JNull end)
          (match dict_get "attachment_id" attachment_data with Some v => v | None => JNull end)
          (match dict_get "timestamp" attachment_data with Some v => v | None => JNull end)).
Proof. unfold extract. intros -> ->. reflexivity. Qed.

Section PerEntry.

Variable fetch : list download -> string -> response.

Lemma verdict_lines_other T key f st st' T' :
  verdict fetch T key f st st' -> T' <> T -> lines_of T' st' = lines_of T' st.
Proof.
  intros Hv Hne. apply String.eqb_neq in Hne.
  destruct Hv as [? ? _ _ _ _ _ _ Hl | ? ? ? _ _ _ _ _ _ _ Hl | ? _ _ _ _ _ _ Hl];
    rewrite Hl; try reflexivity; now rewrite Hne.
Qed.

(** A step that made a request that failed is a [Failure]. *)
Lemma failed_attempt_inv T key f st st' d :
  verdict fetch T key f st st' ->
  downloads st' = (downloads st ++ [d])%list -> failed (outcome d) = true ->
  d = attempt fetch st key f /\ status_cache st' = status_cache st /\
  updates_made st' = updates_made st /\ forall T', lines_of T' st' = lines_of T' st.
Proof.
  intros Hv Hd Hf.
  destruct Hv as [? ? _ _ _ Hd' _ _ _ | ? h ? _ _ Hs Hd' _ _ _ _ | ? _ _ _ Hd' Hc Hu Hl].
  - rewrite Hd' in Hd. now apply app_tail_neq in Hd.
  - rewrite Hd' in Hd. apply app_inj_tail in Hd as [_ <-].
    unfold failed in Hf. now rewrite Hs in Hf.
  - rewrite Hd' in Hd. apply app_inj_tail in Hd as [_ <-]. auto.
Qed.

(** C9: an entry whose mod id or attachment id is there but is null, zero,
    empty or otherwise false for Python is skipped like one without the
    field: the loop body leaves the state as it found it, so the entry adds
    no JSON record, no hash line, no request and no cache change. *)
Theorem falsy_ids_are_skipped st key item data attachment_data :
  py_get item "data" (JObj []) = Some (JObj data) ->
  py_get item "attachment_data" (JObj []) = Some (JObj attachment_data) ->
  absent_or_falsy (dict_get "id" data) \/
  absent_or_falsy (dict_get "attachment_id" attachment_data) ->
  process_entry fetch st key item = Some st.
Proof.
  intros Hd Ha Hfalsy. unfold process_entry.
  rewrite (extract_obj _ _ _ Hd Ha). unfold missing_ids. simpl.
  destruct Hfalsy as [H|H].
  - destruct (dict_get "id" data) as [v|]; simpl in *; [rewrite H|]; reflexivity.
  - destruct (dict_get "attachment_id" attachment_data) as [v|]; simpl in *;
      [rewrite H|]; now rewrite orb_true_r.
Qed.

(** C10: a valid entry whose data has no type field is not skipped: its
    type reads as unknown, which [get_singular_name] returns unchanged, its
    record is stored in the unknown bucket, and no bucket or hash list of
    another type changes. *)
Theorem untyped_entry_goes_to_unknown st key item data f st' :
  aligned st ->
  py_get item "data" (JObj []) = Some (JObj data) ->
  dict_get "type" data = None ->
  extract item = Some f -> missing_ids f = false ->
  process_entry fetch st key item = Some st' ->
  singular_of f = Some "unknown" /\
  dict_get key (entries_of "unknown" st') = Some item /\
  forall T, T <> "unknown" ->
    entries_of T st' = entries_of T st /\ lines_of T st' = lines_of T st.
Proof.
  intros Ha Hd Ht Hf Hv H.
  assert (HT : singular_of f = Some "unknown").
  { unfold extract in Hf. rewrite Hd in Hf.
    destruct (py_get item "attachment_data" (JObj [])) as [a|]; [|discriminate].
    simpl in Hf. rewrite Ht in Hf.
    destruct (py_get a "attachment_id" JNull); [|discriminate].
    destruct (py_get a "timestamp" JNull); [|discriminate].
    injection Hf as <-. reflexivity. }
  destruct (valid_entry_inv _ _ _ _ _ _ Ha Hf Hv H) as (T & HT' & He & Hverdict).
  rewrite HT in HT'. injection HT' as <-.
  split; [exact HT|]. split.
  - rewrite He, String.eqb_refl. apply dict_get_set_same.
  - intros T HneT. split.
    + rewrite He. apply String.eqb_neq in HneT. now rewrite HneT.
    + eapply verdict_lines_other; eauto.
Qed.

(** C5: when the request made for an entry fails (a status other than 200,
    or an exception while requesting, streaming or hashing), the status
    cache after the entry is the one before it, every record included, and
    the run is not marked as having updates. *)
Theorem failed_download_leaves_cache st key item st' d :
  process_entry fetch st key item = Some st' ->
  downloads st' = (downloads st ++ [d])%list ->
  failed (outcome d) = true ->
  status_cache st' = status_cache st /\ updates_made st' = updates_made st.
Proof.
  intros H Hd Hf.
  apply process_entry_inv in H as (f & _ & [[_ ->]|(_ & T & st1 & _ & Hb & Hr)]).
  - now apply app_tail_neq in Hd.
  - apply add_to_bucket_inv in Hb as (_ & _ & _ & Hc & Hu & Hd1).
    destruct (init_buckets_frame T st) as (Hc' & Hu' & Hd1').
    rewrite Hc', Hu', Hd1' in *.
    destruct Hr as [ce h _ _ _ Hadd | ce h m stc _ _ Hs _ -> Hadd | ce _ _ Hs ->].
    + apply add_hash_line_inv in Hadd as (_ & _ & _ & Hd' & _).
      rewrite Hd', Hd1 in Hd. now apply app_tail_neq in Hd.
    + apply add_hash_line_inv in Hadd as (_ & _ & _ & Hd' & _). simpl in Hd'.
      rewrite Hd', Hd1 in Hd. apply app_inj_tail in Hd as [_ <-].
      rewrite Hd1 in Hs. unfold failed in Hf. simpl in Hf. now rewrite Hs in Hf.
    + simpl. auto.
Qed.

(** C1, as the code has it: an entry is put in its JSON bucket (line 72)
    before its archive is requested, so when the request fails the record
    of the entry is in the bucket of its type all the same; the entry adds
    no hash line and the cache is left as it was. *)
Theorem failed_download_keeps_json_record st key item st' d :
  aligned st ->
  process_entry fetch st key item = Some st' ->
  downloads st' = (downloads st ++ [d])%list ->
  failed (outcome d) = true ->
  exists f T,
    extract item = Some f /\ missing_ids f = false /\ singular_of f = Some T /\
    d = attempt fetch st key f /\
    dict_get key (entries_of T st') = Some item /\
    (forall T', lines_of T' st' = lines_of T' st) /\
    status_cache st' = status_cache st.
Proof.
  intros Ha H Hd Hf.
  pose proof (process_entry_inv _ _ _ _ _ H) as (f & Hx & [[_ ->]|(Hv & _)]).
  - now apply app_tail_neq in Hd.
  - destruct (valid_entry_inv _ _ _ _ _ _ Ha Hx Hv H) as (T & HT & He & Hverdict).
    destruct (failed_attempt_inv _ _ _ _ _ _ Hverdict Hd Hf) as (-> & Hc & _ & Hl).
    exists f, T. repeat split; auto.
    rewrite He, String.eqb_refl. apply dict_get_set_same.
Qed.

End PerEntry.

Section CacheDecision.

Variable fetch : list download -> string -> response.

(** C8: when the cache record of an entry has the remote timestamp but no
    md5 value (none, or one that is null or empty), the loop body makes no
    request and adds no hash line; the record of the entry is stored in the
    bucket of its type and the cache stays as it was. *)
Theorem record_without_md5_gives_no_line st key item f T m record cached :
  aligned st ->
  extract item = Some f -> missing_ids f = false -> singular_of f = Some T ->
  status_cache st = JObj m ->
  dict_get (py_str (attachment_id f)) m = Some (JObj record) ->
  dict_get "timestamp" record = Some cached ->
  py_eq cached (timestamp f) = true ->
  absent_or_falsy (dict_get "md5" record) ->
  exists st',
    process_entry fetch st key item = Some st' /\
    downloads st' = downloads st /\
    status_cache st' = status_cache st /\
    updates_made st' = updates_made st /\
    (forall T', lines_of T' st' = lines_of T' st) /\
    dict_get key (entries_of T st') = Some item.
Proof.
  intros Ha Hf Hv HT Hm Hrec Hts Heq Hmd5.
  destruct (add_to_bucket_total T key item (init_buckets T st) (init_buckets_mem T st))
    as [st1 Hb].
  pose proof (bucketed_frame _ _ _ _ _ Hb) as (Hc & Hu & Hd & He & Hl).
  destruct (Hl Ha) as [_ Hl1].
  exists st1. repeat split; auto.
  - unfold process_entry. rewrite Hf, Hv, HT, Hb.
    unfold resolve_hash, cache_lookup. rewrite Hc, Hm. simpl. rewrite Hrec.
    unfold needs_download.
    assert (Htruthy : truthy (JObj record) = true)
      by (destruct record; [discriminate | reflexivity]).
    rewrite Htruthy. simpl. rewrite Hts, Heq. simpl.
    unfold add_hash_line.
    destruct (dict_get "md5" record) as [h|]; simpl in Hmd5; [rewrite Hmd5|]; reflexivity.
  - rewrite He, String.eqb_refl. apply dict_get_set_same.
Qed.

(** What line 75 finds, read on the cache itself. *)
Lemma cache_lookup_inv cache a cache_entry :
  cache_lookup cache a = Some cache_entry ->
  exists m, cache = JObj m /\
            cache_entry = match dict_get (py_str a) m with Some v => v | None => JNull end.
Proof.
  unfold cache_lookup, py_get. destruct cache as [| | | | |m]; try discriminate.
  intros H. injection H as <-. eauto.
Qed.

(** An entry of the cache that line 80 takes for a record and reads the
    timestamp of is a non-empty object stored under the key. *)
Lemma cache_lookup_record m a cache_entry cached :
  cache_entry = match dict_get a m with Some v => v | None => JNull end ->
  truthy cache_entry = true ->
  py_get cache_entry "timestamp" JNull = Some cached ->
  exists record,
    dict_get a m = Some (JObj record) /\ cache_entry = JObj record /\ record <> [] /\
    cached = record_field "timestamp" record /\
    py_get cache_entry "md5" JNull = Some (record_field "md5" record).
Proof.
  intros Hce Ht Hg.
  destruct (dict_get a m) as [v|]; [|subst cache_entry; discriminate].
  subst v. destruct cache_entry as [| | | | |record]; try discriminate.
  exists record. repeat split.
  - intros ->. discriminate.
  - simpl in Hg. now injection Hg as <-.
Qed.

(** C2: for a valid entry the archive is requested exactly when the cache
    holds no record under the attachment id (the key [str(attachment_id)]
    is not there, or is bound to null or to an empty value) or the
    timestamp of the record under it is not equal ([!=]) to the remote one.
    When the record has a timestamp equal to the remote one nothing is
    requested, the cache is left alone and the hash line of the entry is
    the md5 of the record, a space and the mod id (no line when the record
    has no md5). *)
Theorem download_iff_no_record_or_new_timestamp st key item f st' :
  aligned st ->
  extract item = Some f -> missing_ids f = false ->
  process_entry fetch st key item = Some st' ->
  exists m T,
    status_cache st = JObj m /\ singular_of f = Some T /\
    (downloads st' = (downloads st ++ [attempt fetch st key f])%list <->
     absent_or_falsy (dict_get (py_str (attachment_id f)) m) \/
     exists record,
       dict_get (py_str (attachment_id f)) m = Some (JObj record) /\ record <> [] /\
       py_eq (record_field "timestamp" record) (timestamp f) = false) /\
    (forall record,
       dict_get (py_str (attachment_id f)) m = Some (JObj record) -> record <> [] ->
       py_eq (record_field "timestamp" record) (timestamp f) = true ->
       downloads st' = downloads st /\
       status_cache st' = status_cache st /\
       lines_of T st' =
       (lines_of T st ++
        if truthy (record_field "md5" record)
        then [(py_str (record_field "md5" record) ++ " " ++ py_str (mod_id f))%string]
        else [])%list).
Proof.
  intros Ha Hf Hv H.
  destruct (valid_entry_inv _ _ _ _ _ _ Ha Hf Hv H) as (T & HT & _ & Hverdict).
  assert (Hmiss : forall m cache_entry,
            cache_entry = match dict_get (py_str (attachment_id f)) m with
                          | Some v => v | None => JNull end ->
            needs_download cache_entry (timestamp f) = Some true ->
            (absent_or_falsy (dict_get (py_str (attachment_id f)) m) \/
             exists record,
               dict_get (py_str (attachment_id f)) m = Some (JObj record) /\ record <> [] /\
               py_eq (record_field "timestamp" record) (timestamp f) = false) /\
            (forall record,
               dict_get (py_str (attachment_id f)) m = Some (JObj record) -> record <> [] ->
               py_eq (record_field "timestamp" record) (timestamp f) = true -> False)).
  { intros m ce Hce Hn. apply needs_download_true in Hn as [Hfalse|(Htr & c & Hgc & Hne)].
    - split.
      + left. destruct (dict_get (py_str (attachment_id f)) m) as [v|]; simpl; [|exact I].
        now subst v.
      + intros record Hrec Hnonempty _. rewrite Hrec in Hce. subst ce.
        destruct record; [now apply Hnonempty | discriminate].
    - destruct (cache_lookup_record _ _ _ _ Hce Htr Hgc) as (r & Hr & _ & Hnonempty & -> & _).
      split.
      + right. exists r. auto.
      + intros record Hrec _ Heq. rewrite Hr in Hrec. injection Hrec as <-. congruence. }
  destruct Hverdict as [ce h Hce Hn Hg Hd Hc _ Hl
                       | ce h m0 Hce Hn _ Hd _ _ _ _
                       | ce Hce Hn _ Hd _ _ _];
    apply cache_lookup_inv in Hce as (m & Hm & Hce); exists m, T;
    (split; [exact Hm|]); (split; [exact HT|]).
  - apply needs_download_false in Hn as (Htr & c & Hgc & Hpe).
    destruct (cache_lookup_record _ _ _ _ Hce Htr Hgc) as (r & Hr & _ & Hnonempty & -> & Hmd5).
    split.
    + split.
      * intros Hd'. rewrite Hd in Hd'. now apply app_tail_neq in Hd'.
      * intros [Hno|(record & Hrec & _ & Hne)].
        -- rewrite Hr in Hno. simpl in Hno. destruct r; [now elim Hnonempty | discriminate].
        -- rewrite Hr in Hrec. injection Hrec as <-. congruence.
    + intros record Hrec _ _. rewrite Hr in Hrec. injection Hrec as <-.
      rewrite Hmd5 in Hg. injection Hg as <-.
      repeat split; auto. now rewrite Hl, String.eqb_refl.
  - destruct (Hmiss m ce Hce Hn) as [Hyes Hno]. split.
    + split; [intros _; exact Hyes | intros _; exact Hd].
    + intros record Hrec Hnonempty Heq. destruct (Hno record Hrec Hnonempty Heq).
  - destruct (Hmiss m ce Hce Hn) as [Hyes Hno]. split.
    + split; [intros _; exact Hyes | intros _; exact Hd].
    + intros record Hrec Hnonempty Heq. destruct (Hno record Hrec Hnonempty Heq).
Qed.

End CacheDecision.

(** ** Claims about a whole run *)

Lemma some_succeeded_app l d :
  some_succeeded (l ++ [d]) = some_succeeded l || negb (failed (outcome d)).
Proof. unfold some_succeeded. rewrite existsb_app. simpl. now rewrite orb_false_r. Qed.

Lemma some_succeeded_In l :
  some_succeeded l = true <-> exists d, In d l /\ failed (outcome d) = false.
Proof.
  unfold some_succeeded. rewrite existsb_exists.
  split; intros (d & Hin & H); exists d; split; auto.
  - now apply negb_true_iff.
  - now apply negb_true_iff.
Qed.

Section WholeRun.

Variable fetch : list download -> string -> response.

Lemma main_inv entries cache_file out :
  main fetch (Some (JObj entries)) cache_file = Some out ->
  exists st, process_all fetch (initial cache_file) entries = Some st /\
             out = save_outputs st.
Proof.
  simpl. destruct (process_all fetch (initial cache_file) entries) as [st|];
    [|discriminate].
  intros H. injection H as <-. eauto.
Qed.

(** [updates_made] is set by the entries whose download went through, and
    by nothing else. *)
Lemma process_entry_updates st key item st' :
  process_entry fetch st key item = Some st' ->
  updates_made st = some_succeeded (downloads st) ->
  updates_made st' = some_succeeded (downloads st').
Proof.
  intros H Hinv.
  apply process_entry_inv in H as (f & _ & [[_ ->]|(_ & T & st1 & _ & Hb & Hr)]);
    [exact Hinv|].
  apply add_to_bucket_inv in Hb as (_ & _ & _ & _ & Hu & Hd).
  destruct (init_buckets_frame T st) as (_ & Hu' & Hd').
  rewrite Hu' in Hu. rewrite Hd' in Hd.
  destruct Hr as [ce h _ _ _ Hadd | ce h m stc _ _ Hs _ -> Hadd | ce _ _ Hs ->].
  - apply add_hash_line_inv in Hadd as (_ & _ & Hu1 & Hd1 & _). congruence.
  - apply add_hash_line_inv in Hadd as (_ & _ & Hu1 & Hd1 & _). simpl in Hu1, Hd1.
    rewrite Hu1, Hd1, some_succeeded_app. simpl. unfold failed. rewrite Hs. simpl.
    now rewrite orb_true_r.
  - simpl. rewrite some_succeeded_app. simpl. unfold failed. rewrite Hs. simpl.
    rewrite orb_false_r. congruence.
Qed.

Lemma process_all_updates entries : forall st st',
  process_all fetch st entries = Some st' ->
  updates_made st = some_succeeded (downloads st) ->
  updates_made st' = some_succeeded (downloads st').
Proof.
  induction entries as [|[key item] rest IH]; simpl; intros st st' H Hinv.
  - now injection H as <-.
  - destruct (process_entry fetch st key item) as [st1|] eqn:E; [|discriminate].
    eauto using process_entry_updates.
Qed.

(** The cache handed to the write of lines 129-132: there is one exactly
    when some request of the run went through (status 200 and the archive
    hashed). *)
Lemma cache_saved_iff_download_succeeded mod_list cache_file out :
  main fetch mod_list cache_file = Some out ->
  (saved_cache out <> None <->
   exists d, In d (requested out) /\ failed (outcome d) = false) /\
  ((forall d, In d (requested out) -> failed (outcome d) = true) ->
   saved_cache out = None).
Proof.
  intros H.
  assert (Hkey : saved_cache out <> None <-> some_succeeded (requested out) = true).
  { destruct mod_list as [[| | | | |entries]|]; try discriminate.
    - apply main_inv in H as (st & Hrun & ->).
      apply process_all_updates in Hrun; [|reflexivity].
      unfold save_outputs. simpl. rewrite <- Hrun.
      destruct (updates_made st); split; congruence.
    - injection H as <-. simpl. split; congruence. }
  split.
  - rewrite Hkey. apply some_succeeded_In.
  - intros Hall. destruct (saved_cache out) eqn:E; [|reflexivity].
    assert (Hs : some_succeeded (requested out) = true) by (apply Hkey; congruence).
    apply some_succeeded_In in Hs as (d & Hin & Hd). rewrite (Hall d Hin) in Hd.
    discriminate.
Qed.

End WholeRun.

(** ** The buckets of a run *)

Section Buckets.

Variable fetch : list download -> string -> response.

Lemma process_entry_bucket st key item st' :
  aligned st -> process_entry fetch st key item = Some st' -> fresh_key key st ->
  forall T k v,
    dict_get k (entries_of T st') = Some v <->
    dict_get k (entries_of T st) = Some v \/ (k = key /\ v = item /\ valid_of_type item T).
Proof.
  intros Ha H Hfresh T k v.
  pose proof (process_entry_inv _ _ _ _ _ H) as (f & Hx & [[Hm ->]|(Hv & _)]).
  - split; [auto|]. intros [Hold|(_ & _ & f' & Hx' & Hv' & _)]; [exact Hold|]. congruence.
  - destruct (valid_entry_inv _ _ _ _ _ _ Ha Hx Hv H) as (T0 & HT0 & He & _).
    rewrite He. destruct (String.eqb_spec T T0) as [->|HneT].
    + rewrite dict_get_set. destruct (String.eqb_spec k key) as [->|Hnek].
      * rewrite (Hfresh T0). split.
        -- intros Hs. injection Hs as <-. right. repeat split. now exists f.
        -- intros [Hold|(_ & -> & _)]; [discriminate | reflexivity].
      * split; [auto|]. intros [Hold|(Heq & _)]; [exact Hold | contradiction].
    + split; [auto|]. intros [Hold|(_ & _ & f' & Hx' & _ & HT')]; [exact Hold|]. congruence.
Qed.

Lemma process_entry_fresh st key item st' k :
  aligned st -> process_entry fetch st key item = Some st' -> fresh_key key st ->
  k <> key -> fresh_key k st -> fresh_key k st'.
Proof.
  intros Ha H Hfresh Hne Hk T.
  destruct (dict_get k (entries_of T st')) as [v|] eqn:E; [|reflexivity].
  apply (process_entry_bucket _ _ _ _ Ha H Hfresh) in E as [Hold|(Heq & _)];
    [rewrite (Hk T) in Hold; discriminate | contradiction].
Qed.

(** The buckets after a pass over [entries]: what was there, and the valid
    entries of the pass, each under its normalized type. *)
Lemma process_all_bucket entries : forall st st',
  aligned st -> process_all fetch st entries = Some st' ->
  NoDup (keys entries) -> (forall k, In k (keys entries) -> fresh_key k st) ->
  forall T k v,
    dict_get k (entries_of T st') = Some v <->
    dict_get k (entries_of T st) = Some v \/ (In (k, v) entries /\ valid_of_type v T).
Proof.
  induction entries as [|[key item] rest IH]; simpl; intros st st' Ha H Hnd Hfresh T k v.
  - injection H as <-. tauto.
  - destruct (process_entry fetch st key item) as [st1|] eqn:E; [|discriminate].
    inversion Hnd as [|? ? Hnotin Hnd']; subst.
    assert (Hkey : fresh_key key st) by (apply Hfresh; auto).
    rewrite (IH st1 st'); eauto using process_entry_aligned.
    + rewrite (process_entry_bucket _ _ _ _ Ha E Hkey). split.
      * intros [[Hold|(-> & -> & Hval)]|[Hin Hval]]; auto.
      * intros [Hold|[[Heq|Hin] Hval]]; auto.
        injection Heq as <- <-. auto.
    + intros k' Hin. eapply process_entry_fresh; eauto.
      intros ->. contradiction.
Qed.

Lemma new_lines_length h id : List.length (new_lines h id) <= 1.
Proof. unfold new_lines. destruct (truthy h); simpl; lia. Qed.

Lemma process_entry_counts st key item st' :
  aligned st -> process_entry fetch st key item = Some st' -> fresh_key key st ->
  forall T,
    List.length (lines_of T st') + List.length (entries_of T st)
    <= List.length (entries_of T st') + List.length (lines_of T st).
Proof.
  intros Ha H Hfresh T.
  pose proof (process_entry_inv _ _ _ _ _ H) as (f & Hx & [[Hm ->]|(Hv & _)]); [lia|].
  destruct (valid_entry_inv _ _ _ _ _ _ Ha Hx Hv H) as (T0 & HT0 & He & Hverdict).
  rewrite He.
  assert (Hlines : List.length (lines_of T st')
                   <= List.length (lines_of T st) + if String.eqb T T0 then 1 else 0).
  { destruct Hverdict as [? h _ _ _ _ _ _ Hl | ? h ? _ _ _ _ _ _ _ Hl | ? _ _ _ _ _ _ Hl];
      rewrite Hl; destruct (String.eqb_spec T T0) as [->|]; try lia;
      rewrite length_app;
      match goal with |- context [new_lines ?a ?b] =>
        pose proof (new_lines_length a b) end; lia. }
  destruct (String.eqb_spec T T0) as [->|]; [|lia].
  rewrite length_dict_set.
  assert (Hmem : dict_mem key (entries_of T0 st) = false)
    by (apply dict_mem_false, Hfresh).
  rewrite Hmem. lia.
Qed.

Lemma process_all_counts entries : forall st st',
  aligned st -> process_all fetch st entries = Some st' ->
  NoDup (keys entries) -> (forall k, In k (keys entries) -> fresh_key k st) ->
  forall T,
    List.length (lines_of T st') + List.length (entries_of T st)
    <= List.length (entries_of T st') + List.length (lines_of T st).
Proof.
  induction entries as [|[key item] rest IH]; simpl; intros st st' Ha H Hnd Hfresh T.
  - injection H as <-. lia.
  - destruct (process_entry fetch st key item) as [st1|] eqn:E; [|discriminate].
    inversion Hnd as [|? ? Hnotin Hnd']; subst.
    assert (Hkey : fresh_key key st) by (apply Hfresh; auto).
    pose proof (process_entry_counts _ _ _ _ Ha E Hkey T) as Hstep.
    assert (Hrest : List.length (lines_of T st') + List.length (entries_of T st1)
                    <= List.length (entries_of T st') + List.length (lines_of T st1)).
    { apply IH; eauto using process_entry_aligned.
      intros k' Hin. eapply process_entry_fresh; eauto.
      intros ->. contradiction. }
    lia.
Qed.

End Buckets.

Lemma initial_fresh cache_file k : fresh_key k (initial cache_file).
Proof. intros T. reflexivity. Qed.

Lemma entries_of_get T st bucket :
  dict_get T (type_buckets st) = Some bucket -> entries_of T st = bucket.
Proof. unfold entries_of. now intros ->. Qed.

Lemma entries_of_some T st k v :
  dict_get k (entries_of T st) = Some v ->
  exists bucket, dict_get T (type_buckets st) = Some bucket /\ dict_get k bucket = Some v.
Proof.
  unfold entries_of. destruct (dict_get T (type_buckets st)) as [b|]; [eauto|discriminate].
Qed.

Lemma aligned_hash_bucket T st bucket :
  aligned st -> dict_get T (type_buckets st) = Some bucket ->
  exists lines, dict_get T (hash_buckets st) = Some lines.
Proof.
  intros Ha Hb. apply dict_get_keys. rewrite <- Ha. apply dict_get_keys. eauto.
Qed.

Section HashLines.

Variable fetch : list download -> string -> response.

Lemma process_entry_lines st key item st' :
  aligned st -> process_entry fetch st key item = Some st' ->
  forall T,
    lines_of T st' = lines_of T st \/
    exists f h,
      extract item = Some f /\ missing_ids f = false /\ singular_of f = Some T /\
      truthy h = true /\ hash_source fetch st st' key f h /\
      lines_of T st' = (lines_of T st ++ [hash_line h (mod_id f)])%list.
Proof.
  intros Ha H T.
  pose proof (process_entry_inv _ _ _ _ _ H) as (f & Hx & [[Hm ->]|(Hv & _)]); [auto|].
  destruct (valid_entry_inv _ _ _ _ _ _ Ha Hx Hv H) as (T0 & HT0 & _ & Hverdict).
  destruct Hverdict as [ce h Hce Hn Hg Hd _ _ Hl
                       | ce h m Hce Hn Hs Hd _ _ _ Hl
                       | ce _ _ _ _ _ _ Hl]; rewrite Hl; auto;
    (destruct (String.eqb_spec T T0) as [->|]; [|auto]);
    unfold new_lines.
  - destruct (truthy h) eqn:Hh; [|left; apply app_nil_r].
    right. exists f, h. repeat split; auto.
    apply needs_download_false in Hn as (Htr & _).
    eapply Cached; eauto. unfold cached_record. now rewrite Hce, Htr.
  - destruct (truthy (JStr h)) eqn:Hh; [|left; apply app_nil_r].
    right. exists f, (JStr h). repeat split; auto.
    now apply Downloaded.
Qed.

Lemma process_entry_failed_lines st key item st' d :
  aligned st -> process_entry fetch st key item = Some st' ->
  downloads st' = (downloads st ++ [d])%list -> failed (outcome d) = true ->
  forall T, lines_of T st' = lines_of T st.
Proof.
  intros Ha H Hd Hf.
  pose proof (process_entry_inv _ _ _ _ _ H) as (f & Hx & [[_ ->]|(Hv & _)]).
  - now apply app_tail_neq in Hd.
  - destruct (valid_entry_inv _ _ _ _ _ _ Ha Hx Hv H) as (T0 & _ & _ & Hverdict).
    now destruct (failed_attempt_inv _ _ _ _ _ _ _ Hverdict Hd Hf) as (_ & _ & _ & Hl).
Qed.

(** A run passes through every entry of the catalog. *)
Lemma process_all_split pre key item post st0 stf :
  process_all fetch st0 (pre ++ (key, item) :: post)%list = Some stf ->
  exists st st',
    process_all fetch st0 pre = Some st /\
    process_entry fetch st key item = Some st' /\
    process_all fetch st' post = Some stf.
Proof.
  rewrite process_all_app.
  destruct (process_all fetch st0 pre) as [st|]; [|discriminate]. simpl.
  destruct (process_entry fetch st key item) as [st'|] eqn:E; [|discriminate].
  eauto.
Qed.

(** A run that completes read every item of the catalog. *)
Lemma completed_run_shapes entries : forall st st' k item,
  process_all fetch st entries = Some st' -> In (k, item) entries ->
  well_shaped item.
Proof.
  intros st st' k item Hrun Hin.
  apply in_split in Hin as (pre & post & ->).
  apply process_all_split in Hrun as (s & s' & _ & Hstep & _).
  apply process_entry_inv in Hstep as (f & Hx & [[Hm _]|(_ & T & _ & HT & _)]);
    exists f; split; auto.
  - congruence.
  - intros _. unfold singular_of in HT.
    destruct (mod_type f); try discriminate. eauto.
Qed.

(** C6: the keys of the per-type JSON outputs partition the valid entries
    of the catalog: every key of a bucket is a key of the catalog, what a
    bucket holds is a valid entry whose normalized type the bucket is named
    after, every valid entry is in the bucket of its normalized type with
    its record, and no key is in two buckets. *)
Theorem buckets_partition_valid_entries entries cache_file out :
  NoDup (keys entries) ->
  main fetch (Some (JObj entries)) cache_file = Some out ->
  (forall T bucket k,
     dict_get T (saved_json out) = Some bucket -> In k (keys bucket) ->
     In k (keys entries)) /\
  (forall T bucket k item,
     dict_get T (saved_json out) = Some bucket -> dict_get k bucket = Some item ->
     In (k, item) entries /\ valid_of_type item T) /\
  (forall k item f,
     In (k, item) entries -> extract item = Some f -> missing_ids f = false ->
     exists T bucket,
       singular_of f = Some T /\
       dict_get T (saved_json out) = Some bucket /\ dict_get k bucket = Some item) /\
  (forall T T' bucket bucket' k,
     dict_get T (saved_json out) = Some bucket ->
     dict_get T' (saved_json out) = Some bucket' ->
     In k (keys bucket) -> In k (keys bucket') -> T = T').
Proof.
  intros Hnd H. apply main_inv in H as (st & Hrun & ->). simpl.
  pose proof (process_all_bucket fetch entries _ _ (initial_aligned cache_file) Hrun Hnd
                (fun k _ => initial_fresh cache_file k)) as Hchar.
  assert (Hin : forall T bucket k item,
             dict_get T (type_buckets st) = Some bucket -> dict_get k bucket = Some item ->
             In (k, item) entries /\ valid_of_type item T).
  { intros T bucket k item Hb Hk.
    rewrite <- (entries_of_get _ _ _ Hb) in Hk.
    apply Hchar in Hk as [Hk|Hk]; [discriminate | exact Hk]. }
  repeat split.
  - intros T bucket k Hb Hk. apply dict_get_keys in Hk as [item Hk].
    destruct (Hin _ _ _ _ Hb Hk) as [Hi _].
    change k with (fst (k, item)). now apply in_map.
  - eapply Hin; eauto.
  - eapply Hin; eauto.
  - intros k item f Hi Hx Hv.
    destruct (completed_run_shapes entries _ _ k item Hrun Hi) as (f' & Hx' & Hty).
    rewrite Hx in Hx'. injection Hx' as <-.
    destruct (Hty Hv) as [type_name Hname].
    exists (get_singular_name type_name).
    assert (HT : singular_of f = Some (get_singular_name type_name))
      by (unfold singular_of; now rewrite Hname).
    destruct (entries_of_some (get_singular_name type_name) st k item)
      as (bucket & Hb & Hk).
    { apply Hchar. right. split; [exact Hi|]. now exists f. }
    exists bucket. auto.
  - intros T T' bucket bucket' k Hb Hb' Hk Hk'.
    apply dict_get_keys in Hk as [item Hk]. apply dict_get_keys in Hk' as [item' Hk'].
    destruct (Hin _ _ _ _ Hb Hk) as [Hi (f & Hx & _ & HT)].
    destruct (Hin _ _ _ _ Hb' Hk') as [Hi' (f' & Hx' & _ & HT')].
    apply (In_dict_get _ _ _ Hnd) in Hi. apply (In_dict_get _ _ _ Hnd) in Hi'.
    congruence.
Qed.

(** C7: in every type bucket there are at most as many hash lines as JSON
    records; and at each entry of the run a hash line is added only for a
    valid entry with a hash that is true for Python, taken from the cache
    record or from the download just made, while an entry whose download
    failed adds none. *)
Theorem hash_lines_need_a_hash entries cache_file out :
  NoDup (keys entries) ->
  main fetch (Some (JObj entries)) cache_file = Some out ->
  (forall T bucket,
     dict_get T (saved_json out) = Some bucket ->
     exists lines, dict_get T (saved_hash out) = Some lines /\
                   List.length lines <= List.length bucket) /\
  (forall pre key item post,
     entries = (pre ++ (key, item) :: post)%list ->
     exists st st',
       process_all fetch (initial cache_file) pre = Some st /\
       process_entry fetch st key item = Some st' /\
       (forall T,
          lines_of T st' = lines_of T st \/
          exists f h,
            extract item = Some f /\ missing_ids f = false /\ singular_of f = Some T /\
            truthy h = true /\ hash_source fetch st st' key f h /\
            lines_of T st' = (lines_of T st ++ [hash_line h (mod_id f)])%list) /\
       (forall d,
          downloads st' = (downloads st ++ [d])%list -> failed (outcome d) = true ->
          forall T, lines_of T st' = lines_of T st)).
Proof.
  intros Hnd H. apply main_inv in H as (stf & Hrun & ->). simpl. split.
  - intros T bucket Hb.
    pose proof (process_all_aligned _ _ _ _ Hrun (initial_aligned cache_file)) as Ha.
    destruct (aligned_hash_bucket _ _ _ Ha Hb) as [lines Hl]. exists lines. split; [exact Hl|].
    pose proof (process_all_counts fetch entries _ _ (initial_aligned cache_file) Hrun Hnd
                  (fun k _ => initial_fresh cache_file k) T) as Hc.
    unfold entries_of, lines_of in Hc. rewrite Hb, Hl in Hc. simpl in Hc. lia.
  - intros pre key item post ->.
    apply process_all_split in Hrun as (st & st' & Hpre & Hstep & _).
    pose proof (process_all_aligned _ _ _ _ Hpre (initial_aligned cache_file)) as Ha.
    exists st, st'. repeat split; auto.
    + now apply process_entry_lines.
    + intros d Hd Hf. eapply process_entry_failed_lines; eauto.
Qed.

End HashLines.

(** ** Equality of JSON values *)

Lemma nodupb_NoDup l : nodupb l = true -> NoDup l.
Proof.
  induction l as [|x r IH]; simpl; [constructor|].
  intros H. apply andb_true_iff in H as [Hx Hr]. constructor; [|auto].
  intros Hin. apply negb_true_iff in Hx.
  assert (Hex : existsb (String.eqb x) r = true)
    by (apply existsb_exists; exists x; split; [exact Hin | apply String.eqb_refl]).
  congruence.
Qed.

Lemma py_eq_arr l l' :
  py_eq (JArr l) (JArr l') =
  (fix go (l l' : list json) {struct l} : bool :=
     match l, l' with
     | [], [] => true
     | x :: r, y :: r' => py_eq x y && go r r'
     | _, _ => false
     end) l l'.
Proof. reflexivity. Qed.

Lemma py_eq_obj m m' :
  py_eq (JObj m) (JObj m') =
  (List.length m =? List.length m')%nat &&
  forallb (fun kv : string * json =>
             match dict_get (fst kv) m' with
             | Some v' => py_eq (snd kv) v'
             | None => false
             end) m.
Proof.
  simpl. f_equal. induction m as [|[k v] r IH]; simpl; [reflexivity|].
  destruct (dict_get k m'); [|reflexivity]. now rewrite IH.
Qed.

Lemma b2z_inj x y : Z.b2z x = Z.b2z y -> x = y.
Proof. destruct x, y; simpl; congruence. Qed.

Lemma py_eq_arr_trans l :
  Forall (fun a => forall b c, py_eq a b = true -> py_eq b c = true -> py_eq a c = true) l ->
  forall l' l'', py_eq (JArr l) (JArr l') = true -> py_eq (JArr l') (JArr l'') = true ->
  py_eq (JArr l) (JArr l'') = true.
Proof.
  intros IH.
  induction IH as [|x r Hx _ IHr]; intros [|y r'] [|z r''] H1 H2;
    try discriminate; try reflexivity.
  rewrite py_eq_arr in *.
  apply andb_true_iff in H1 as [H1 H1']. apply andb_true_iff in H2 as [H2 H2'].
  apply andb_true_iff. split; [apply (Hx y z); assumption|].
  apply (IHr r' r''); rewrite py_eq_arr; assumption.
Qed.

(** Values equal to a common value are equal: [==] on JSON values is
    transitive. *)
Lemma py_eq_trans a : forall b c,
  py_eq a b = true -> py_eq b c = true -> py_eq a c = true.
Proof.
  induction a as [| x | n | s | l IH | m IH] using json_nested_ind; intros b c H1 H2.
  - destruct b; try discriminate. exact H2.
  - destruct b as [| y | k | | |]; try discriminate; destruct c as [| z | j | | |];
      try discriminate; simpl in *.
    + apply eqb_prop in H1. now subst.
    + apply eqb_prop in H1. now subst.
    + apply Z.eqb_eq in H1. apply Z.eqb_eq in H2. apply eqb_true_iff, b2z_inj. congruence.
    + apply Z.eqb_eq in H1. apply Z.eqb_eq in H2. apply Z.eqb_eq. congruence.
  - destruct b as [| y | k | | |]; try discriminate; destruct c as [| z | j | | |];
      try discriminate; simpl in *.
    + apply Z.eqb_eq in H1. apply eqb_prop in H2. subst. apply Z.eqb_refl.
    + apply Z.eqb_eq in H1. apply Z.eqb_eq in H2. apply Z.eqb_eq. congruence.
    + apply Z.eqb_eq in H1. apply Z.eqb_eq in H2. apply Z.eqb_eq. congruence.
    + apply Z.eqb_eq in H1. apply Z.eqb_eq in H2. apply Z.eqb_eq. congruence.
  - destruct b; try discriminate. destruct c; try discriminate. simpl in *.
    apply String.eqb_eq in H1. apply String.eqb_eq in H2. apply String.eqb_eq. congruence.
  - destruct b as [| | | |l'|]; try discriminate. destruct c as [| | | |l''|]; try discriminate.
    eapply py_eq_arr_trans; eauto.
  - destruct b as [| | | | |m']; try discriminate. destruct c as [| | | | |m'']; try discriminate.
    rewrite py_eq_obj in *.
    apply andb_true_iff in H1 as [L1 F1]. apply andb_true_iff in H2 as [L2 F2].
    apply Nat.eqb_eq in L1. apply Nat.eqb_eq in L2.
    apply andb_true_iff. split; [apply Nat.eqb_eq; congruence|].
    rewrite forallb_forall in *. rewrite Forall_forall in IH.
    intros [k v] Hin. simpl.
    specialize (F1 (k, v) Hin). simpl in F1.
    destruct (dict_get k m') as [v'|] eqn:E1; [|discriminate].
    specialize (F2 (k, v') (dict_get_In _ _ _ E1)). simpl in F2.
    destruct (dict_get k m'') as [v''|]; [|discriminate].
    apply (IH (k, v) Hin v' v''); assumption.
Qed.

(** ** Running twice *)

Lemma add_hash_line_transfer T h id s s' s2 :
  add_hash_line T h id s = Some s' -> hash_buckets s2 = hash_buckets s ->
  exists s2',
    add_hash_line T h id s2 = Some s2' /\
    hash_buckets s2' = hash_buckets s' /\ type_buckets s2' = type_buckets s2 /\
    status_cache s2' = status_cache s2 /\ updates_made s2' = updates_made s2.
Proof.
  unfold add_hash_line. intros H Hhb. rewrite Hhb. destruct (truthy h).
  - destruct (dict_update T _ (hash_buckets s)) as [hb|]; [|discriminate].
    injection H as <-. eexists. split; [reflexivity|]. simpl. auto.
  - injection H as <-. exists s2. auto.
Qed.

Lemma bucket_transfer T key item s s1 s2 :
  add_to_bucket T key item (init_buckets T s) = Some s1 ->
  type_buckets s2 = type_buckets s -> hash_buckets s2 = hash_buckets s ->
  exists s2b,
    add_to_bucket T key item (init_buckets T s2) = Some s2b /\
    type_buckets s2b = type_buckets s1 /\ hash_buckets s2b = hash_buckets s1 /\
    status_cache s2b = status_cache s2 /\ updates_made s2b = updates_made s2 /\
    downloads s2b = downloads s2.
Proof.
  unfold add_to_bucket, init_buckets. intros H Htb Hhb. rewrite Htb, Hhb.
  destruct (dict_mem T (type_buckets s)); simpl in *.
  - rewrite Htb.
    destruct (dict_update T (dict_set key item) (type_buckets s)) as [tb|]; [|discriminate].
    injection H as <-. eexists. split; [reflexivity|]. simpl. auto 6.
  - destruct (dict_update T (dict_set key item) (dict_set T [] (type_buckets s))) as [tb|];
      [|discriminate].
    injection H as <-. eexists. split; [reflexivity|]. simpl. auto 6.
Qed.

Section Twice.

Variable fetch : list download -> string -> response.

Lemma bucketed_cache T key item s s1 :
  add_to_bucket T key item (init_buckets T s) = Some s1 ->
  status_cache s1 = status_cache s /\ updates_made s1 = updates_made s /\
  downloads s1 = downloads s.
Proof.
  intros H. apply add_to_bucket_inv in H as (_ & _ & _ & Hc & Hu & Hd).
  destruct (init_buckets_frame T s) as (Hc' & Hu' & Hd'). repeat split; congruence.
Qed.

(** An entry changes the cache under its own attachment key only. *)
Lemma process_entry_cache_frame st key item st' a :
  process_entry fetch st key item = Some st' ->
  ~ In a (attachment_key_of item) ->
  py_get (status_cache st') a JNull = py_get (status_cache st) a JNull.
Proof.
  intros H Hnot.
  apply process_entry_inv in H as (f & Hx & [[_ ->]|(Hv & T & st1 & _ & Hb & Hr)]);
    [reflexivity|].
  unfold attachment_key_of in Hnot. rewrite Hx, Hv in Hnot. simpl in Hnot.
  apply bucketed_cache in Hb as (Hc & _ & _). rewrite <- Hc.
  destruct Hr as [ce h _ _ _ Hadd | ce h m stc _ _ _ Hm -> Hadd | ce _ _ _ ->].
  - apply add_hash_line_inv in Hadd as (_ & Hc' & _). now rewrite Hc'.
  - apply add_hash_line_inv in Hadd as (_ & Hc' & _). rewrite Hc', Hm. simpl.
    rewrite dict_get_set_other; [reflexivity|]. intros ->. tauto.
  - reflexivity.
Qed.

Lemma process_all_cache_frame entries a : forall st st',
  process_all fetch st entries = Some st' ->
  ~ In a (attachment_keys entries) ->
  py_get (status_cache st') a JNull = py_get (status_cache st) a JNull.
Proof.
  induction entries as [|[key item] rest IH]; simpl; intros st st' H Hnot.
  - now injection H as <-.
  - destruct (process_entry fetch st key item) as [st1|] eqn:E; [|discriminate].
    rewrite in_app_iff in Hnot.
    rewrite (IH st1 st' H), (process_entry_cache_frame _ _ _ _ _ E); tauto.
Qed.

(** The cache changes only in a run that sets [updates_made], and the flag
    is never cleared. *)
Lemma process_entry_no_update st key item st' :
  process_entry fetch st key item = Some st' -> updates_made st' = false ->
  status_cache st' = status_cache st /\ updates_made st = false.
Proof.
  intros H Hu.
  apply process_entry_inv in H as (f & _ & [[_ ->]|(_ & T & st1 & _ & Hb & Hr)]); [auto|].
  apply bucketed_cache in Hb as (Hc & Hu1 & _). rewrite <- Hc, <- Hu1.
  destruct Hr as [ce h _ _ _ Hadd | ce h m stc _ _ _ _ -> Hadd | ce _ _ _ ->].
  - apply add_hash_line_inv in Hadd as (_ & Hc' & Hu' & _). split; congruence.
  - apply add_hash_line_inv in Hadd as (_ & _ & Hu' & _). simpl in Hu'. congruence.
  - simpl in *. auto.
Qed.

Lemma process_all_no_update entries : forall st st',
  process_all fetch st entries = Some st' -> updates_made st' = false ->
  status_cache st' = status_cache st /\ updates_made st = false.
Proof.
  induction entries as [|[key item] rest IH]; simpl; intros st st' H Hu.
  - injection H as <-. auto.
  - destruct (process_entry fetch st key item) as [st1|] eqn:E; [|discriminate].
    destruct (IH _ _ H Hu) as [Hc Hu1].
    destruct (process_entry_no_update _ _ _ _ E Hu1) as [Hc' Hu']. split; congruence.
Qed.

(** The entry of a first pass, met again by a pass that starts with the
    same buckets and finds in its cache what the first pass left for the
    attachment: same buckets after it, and its cache untouched.  The
    record of a download that went through is found again when the
    timestamp of the entry is equal to itself. *)
Lemma second_step s1 s1' s2 key item :
  stable fetch ->
  process_entry fetch s1 key item = Some s1' ->
  type_buckets s2 = type_buckets s1 -> hash_buckets s2 = hash_buckets s1 ->
  (forall f, extract item = Some f -> missing_ids f = false ->
     (py_eq (timestamp f) (timestamp f) = true \/
      forall h, succeeded (fetch h (MOD_DOWNLOAD_TEMPLATE (attachment_id f))) = None) /\
     cache_lookup (status_cache s2) (attachment_id f)
     = cache_lookup (status_cache s1') (attachment_id f)) ->
  exists s2',
    process_entry fetch s2 key item = Some s2' /\
    type_buckets s2' = type_buckets s1' /\ hash_buckets s2' = hash_buckets s1' /\
    status_cache s2' = status_cache s2 /\ updates_made s2' = updates_made s2.
Proof.
  intros Hst H Htb Hhb Hcache.
  destruct (process_entry_inv _ _ _ _ _ H)
    as (f & Hx & [[Hm ->]|(Hv & T & s1b & HT & Hb & Hr)]).
  - exists s2. unfold process_entry. rewrite Hx, Hm. auto.
  - destruct (Hcache f Hx Hv) as [Hrefl Hlook].
    destruct (bucket_transfer _ _ _ _ _ s2 Hb Htb Hhb)
      as (s2b & Hb2 & Htb2 & Hhb2 & Hc2 & Hu2 & Hd2).
    destruct (bucketed_cache _ _ _ _ _ Hb) as (Hc1 & _ & _).
    unfold process_entry. rewrite Hx, Hv, HT, Hb2. unfold resolve_hash.
    rewrite Hc2, Hlook.
    destruct Hr as [ce h Hce Hn Hg Hadd | ce h m stc Hce Hn Hs Hm -> Hadd | ce Hce Hn Hs ->].
    + pose proof (add_hash_line_inv _ _ _ _ _ Hadd) as (Htb' & Hc' & _).
      rewrite Hc', Hce, Hn, Hg.
      destruct (add_hash_line_transfer _ _ _ _ _ s2b Hadd Hhb2)
        as (s2' & Hadd2 & Hhb' & Htb2' & Hc2' & Hu2').
      exists s2'. repeat split; congruence.
    + destruct Hrefl as [Hrefl|Hfail]; [|rewrite Hfail in Hs; discriminate].
      pose proof (add_hash_line_inv _ _ _ _ _ Hadd) as (Htb' & Hc' & _).
      rewrite Hc'. unfold cache_lookup. simpl. rewrite dict_get_set_same.
      unfold needs_download. simpl. rewrite Hrefl. simpl.
      destruct (add_hash_line_transfer _ _ _ _ _ s2b Hadd Hhb2)
        as (s2' & Hadd2 & Hhb' & Htb2' & Hc2' & Hu2').
      exists s2'. simpl in Htb'. repeat split; congruence.
    + simpl. rewrite Hce, Hn.
      rewrite (Hst (downloads s2b) (downloads s1b)), Hs.
      eexists. split; [reflexivity|]. simpl. auto.
Qed.

End Twice.

(** A record that needs no download for a timestamp needs none for a
    timestamp equal to it. *)
Lemma needs_download_equal_timestamp cache_entry t t' :
  needs_download cache_entry t = Some false -> py_eq t t' = true ->
  needs_download cache_entry t' = Some false.
Proof.
  intros H Heq. apply needs_download_false in H as (Htr & c & Hg & Hc).
  apply needs_download_false. split; [exact Htr|]. exists c. split; [exact Hg|].
  exact (py_eq_trans c t t' Hc Heq).
Qed.

Section Idempotence.

Variable fetch : list download -> string -> response.
Hypothesis fetch_stable : stable fetch.

(** After the loop body has been through a valid entry, the cache entry of
    its attachment is settled for the timestamp of the entry: it is a
    record that needs no download, or the archive cannot be had. *)
Lemma settled_after_step s key item s' f :
  process_entry fetch s key item = Some s' ->
  extract item = Some f -> missing_ids f = false ->
  py_eq (timestamp f) (timestamp f) = true ->
  exists cache_entry,
    py_get (status_cache s') (py_str (attachment_id f)) JNull = Some cache_entry /\
    (needs_download cache_entry (timestamp f) = Some false \/
     needs_download cache_entry (timestamp f) = Some true /\
     forall h, succeeded (fetch h (MOD_DOWNLOAD_TEMPLATE (attachment_id f))) = None).
Proof.
  intros H Hx Hv Hself.
  apply process_entry_inv in H as (f' & Hx' & [[Hm _]|(_ & T & sb & _ & Hb & Hr)]);
    rewrite Hx in Hx'; injection Hx' as <-; [congruence|].
  destruct Hr as [ce h Hce Hn _ Hadd | ce h m stc _ _ _ Hm -> Hadd | ce Hce Hn Hs ->].
  - apply add_hash_line_inv in Hadd as (_ & Hc' & _). rewrite Hc'. exists ce. auto.
  - apply add_hash_line_inv in Hadd as (_ & Hc' & _). rewrite Hc'. simpl.
    rewrite dict_get_set_same. eexists. split; [reflexivity|]. left.
    unfold needs_download, cache_record. simpl. now rewrite Hself.
  - exists ce. split; [exact Hce|]. right. split; [exact Hn|].
    intros h. now rewrite (fetch_stable h (downloads sb)).
Qed.

(** A settled cache entry stays as it is while the entries that follow
    with the same attachment id carry an equal timestamp. *)
Lemma settled_rest rest : forall s f1 a t cache_entry,
  process_all fetch s rest = Some f1 ->
  py_get (status_cache s) (py_str a) JNull = Some cache_entry ->
  (needs_download cache_entry t = Some false \/
   needs_download cache_entry t = Some true /\
   forall h, succeeded (fetch h (MOD_DOWNLOAD_TEMPLATE a)) = None) ->
  (forall k item f,
     In (k, item) rest -> extract item = Some f -> missing_ids f = false ->
     py_str (attachment_id f) = py_str a ->
     py_eq t (timestamp f) = true /\ py_eq (timestamp f) t = true) ->
  py_get (status_cache f1) (py_str a) JNull = py_get (status_cache s) (py_str a) JNull.
Proof.
  induction rest as [|[key item] rest IH]; simpl; intros s f1 a t ce H Hce Hset Hsame.
  - now injection H as <-.
  - destruct (process_entry fetch s key item) as [s1|] eqn:E; [|discriminate].
    assert (Hstep : py_get (status_cache s1) (py_str a) JNull
                    = py_get (status_cache s) (py_str a) JNull).
    { destruct (process_entry_inv _ _ _ _ _ E)
        as (f & Hx & [[_ ->]|(Hv & T & sb & _ & Hb & Hr)]); [reflexivity|].
      destruct (String.eqb_spec (py_str (attachment_id f)) (py_str a)) as [Heq|Hne].
      - destruct (Hsame key item f (or_introl eq_refl) Hx Hv Heq) as [Hto Hfrom].
        destruct (bucketed_cache _ _ _ _ _ Hb) as (Hc & _ & _).
        assert (Hurl : MOD_DOWNLOAD_TEMPLATE (attachment_id f) = MOD_DOWNLOAD_TEMPLATE a)
          by (unfold MOD_DOWNLOAD_TEMPLATE; now rewrite Heq).
        assert (Hfound : forall ce', cache_lookup (status_cache sb) (attachment_id f) = Some ce' ->
                                     ce' = ce).
        { intros ce' Hce'. unfold cache_lookup in Hce'. rewrite Hc, Heq in Hce'. congruence. }
        destruct Hr as [ce' h _ _ _ Hadd | ce' h m stc Hce' Hn Hs _ _ _ | ce' _ _ _ ->].
        + apply add_hash_line_inv in Hadd as (_ & Hc' & _). now rewrite Hc', Hc.
        + exfalso. apply Hfound in Hce'. subst ce'.
          destruct Hset as [Hhit|[_ Hfail]].
          * rewrite (needs_download_equal_timestamp _ _ _ Hhit Hto) in Hn. discriminate.
          * rewrite Hurl, Hfail in Hs. discriminate.
        + simpl. now rewrite Hc.
      - apply (process_entry_cache_frame fetch s key item s1 (py_str a) E).
        unfold attachment_key_of. rewrite Hx, Hv. simpl. intros [H'|[]]. now apply Hne. }
    rewrite <- Hstep. apply (IH s1 f1 a t ce H); [congruence | exact Hset |].
    intros k it f Hin. apply (Hsame k it f). auto.
Qed.

(** The cache entry of an attachment whose archive cannot be had stays as
    it is. *)
Lemma unserved_rest rest : forall s f1 a,
  process_all fetch s rest = Some f1 ->
  (forall h, succeeded (fetch h (MOD_DOWNLOAD_TEMPLATE a)) = None) ->
  py_get (status_cache f1) (py_str a) JNull = py_get (status_cache s) (py_str a) JNull.
Proof.
  induction rest as [|[key item] rest IH]; simpl; intros s f1 a H Hfail.
  - now injection H as <-.
  - destruct (process_entry fetch s key item) as [s1|] eqn:E; [|discriminate].
    rewrite (IH s1 f1 a H Hfail).
    destruct (process_entry_inv _ _ _ _ _ E)
      as (f & Hx & [[_ ->]|(Hv & T & sb & _ & Hb & Hr)]); [reflexivity|].
    destruct (String.eqb_spec (py_str (attachment_id f)) (py_str a)) as [Heq|Hne].
    + destruct (bucketed_cache _ _ _ _ _ Hb) as (Hc & _ & _).
      destruct Hr as [ce' h _ _ _ Hadd | ce' h m stc _ _ Hs _ _ _ | ce' _ _ _ ->].
      * apply add_hash_line_inv in Hadd as (_ & Hc' & _). now rewrite Hc', Hc.
      * exfalso. unfold MOD_DOWNLOAD_TEMPLATE in Hs, Hfail. rewrite Heq, Hfail in Hs.
        discriminate.
      * simpl. now rewrite Hc.
    + apply (process_entry_cache_frame fetch s key item s1 (py_str a) E).
      unfold attachment_key_of. rewrite Hx, Hv. simpl. intros [H'|[]]. now apply Hne.
Qed.

(** A second pass over the catalog, from the buckets of the first and with
    a cache that holds under every attachment id what the first pass left
    there: same buckets, and the cache is not touched. *)
Lemma second_pass entries : forall s1 f1 s2,
  agreeing_timestamps fetch entries ->
  process_all fetch s1 entries = Some f1 ->
  type_buckets s2 = type_buckets s1 -> hash_buckets s2 = hash_buckets s1 ->
  (forall a, In a (attachment_keys entries) ->
     py_get (status_cache s2) a JNull = py_get (status_cache f1) a JNull) ->
  exists f2,
    process_all fetch s2 entries = Some f2 /\
    type_buckets f2 = type_buckets f1 /\ hash_buckets f2 = hash_buckets f1 /\
    status_cache f2 = status_cache s2 /\ updates_made f2 = updates_made s2.
Proof.
  induction entries as [|[key item] rest IH]; simpl; intros s1 f1 s2 Hts H Htb Hhb Hagree.
  - injection H as <-. exists s2. auto.
  - destruct (process_entry fetch s1 key item) as [s1'|] eqn:E; [|discriminate].
    destruct (second_step fetch s1 s1' s2 key item fetch_stable E Htb Hhb)
      as (s2' & E2 & Htb' & Hhb' & Hc' & Hu').
    { intros f Hx Hv.
      assert (Hin : In (py_str (attachment_id f)) (attachment_key_of item))
        by (unfold attachment_key_of; rewrite Hx, Hv; simpl; auto).
      unfold cache_lookup. rewrite Hagree by (apply in_or_app; auto).
      destruct (succeeded (fetch [] (MOD_DOWNLOAD_TEMPLATE (attachment_id f))))
        as [digest|] eqn:Hserved.
      - assert (Hequal : forall k it f' k' it' f'',
                  In (k, it) ((key, item) :: rest) -> In (k', it') ((key, item) :: rest) ->
                  extract it = Some f' -> missing_ids f' = false ->
                  extract it' = Some f'' -> missing_ids f'' = false ->
                  py_str (attachment_id f') = py_str (attachment_id f) ->
                  py_str (attachment_id f'') = py_str (attachment_id f) ->
                  py_eq (timestamp f') (timestamp f'') = true).
        { intros k it f' k' it' f'' Hi Hi' Hx' Hv' Hx'' Hv'' Hk Hk'.
          destruct (Hts k it f' k' it' f'' Hi Hi' Hx' Hv' Hx'' Hv'') as [Heq|Hfail];
            [congruence | exact Heq |].
          exfalso. specialize (Hfail []). unfold MOD_DOWNLOAD_TEMPLATE in Hfail, Hserved.
          rewrite Hk, Hserved in Hfail. discriminate. }
        assert (Hself : py_eq (timestamp f) (timestamp f) = true)
          by (apply (Hequal key item f key item f); simpl; auto).
        split; [left; exact Hself|].
        destruct (settled_after_step _ _ _ _ _ E Hx Hv Hself) as (ce & Hce & Hset).
        apply (settled_rest rest s1' f1 (attachment_id f) (timestamp f) ce H Hce Hset).
        intros k it f' Hin' Hx' Hv' Hkey. split.
        + apply (Hequal key item f k it f'); simpl; auto.
        + apply (Hequal k it f' key item f); simpl; auto.
      - assert (Hfail : forall h,
                  succeeded (fetch h (MOD_DOWNLOAD_TEMPLATE (attachment_id f))) = None)
          by (intros h; now rewrite (fetch_stable h [])).
        split; [right; exact Hfail|].
        apply (unserved_rest rest s1' f1 (attachment_id f) H Hfail). }
    rewrite E2.
    destruct (IH s1' f1 s2') as (f2 & H2 & Htbf & Hhbf & Hcf & Huf); auto.
    + intros k it f k' it' f' Hin Hin'. apply (Hts k it f k' it' f'); simpl; auto.
    + intros a Hin. rewrite Hc'. apply Hagree, in_or_app. auto.
    + exists f2. repeat split; congruence.
Qed.

(** The pass of a second run, which reads the cache the first run saved,
    or the cache the first run read when it saved none. *)
Lemma second_main entries cache_file out1 :
  agreeing_timestamps fetch entries ->
  main fetch (Some (JObj entries)) cache_file = Some out1 ->
  exists out2,
    main fetch (Some (JObj entries))
      (match saved_cache out1 with Some c => Some c | None => cache_file end) = Some out2 /\
    output_files out2 = output_files out1 /\
    saved_cache out2 = None.
Proof.
  intros Hts H. apply main_inv in H as (f1 & Hrun & ->).
  set (cache_file' := match saved_cache (save_outputs f1) with
                      | Some c => Some c | None => cache_file end).
  assert (Hcache : status_cache (initial cache_file') = status_cache f1).
  { unfold cache_file', save_outputs. simpl.
    destruct (updates_made f1) eqn:Hu; [reflexivity|].
    now destruct (process_all_no_update fetch entries _ _ Hrun Hu) as [-> _]. }
  destruct (second_pass entries (initial cache_file) f1 (initial cache_file') Hts Hrun)
    as (f2 & H2 & Htb & Hhb & _ & Hu); try reflexivity.
  { intros a _. now rewrite Hcache. }
  exists (save_outputs f2). unfold main. rewrite H2. split; [reflexivity|].
  unfold output_files, save_outputs. simpl. rewrite Htb, Hhb, Hu. auto.
Qed.

End Idempotence.

(** ** Runs that complete *)

Section Completion.

Variable fetch : list download -> string -> response.

Lemma needs_download_total m a ts :
  (forall k v, dict_get k m = Some v -> truthy v = true -> exists r, v = JObj r) ->
  exists cache_entry stale,
    cache_lookup (JObj m) a = Some cache_entry /\
    needs_download cache_entry ts = Some stale /\
    (stale = false -> exists md5, py_get cache_entry "md5" JNull = Some md5).
Proof.
  intros Hm. unfold cache_lookup, py_get, needs_download.
  destruct (dict_get (py_str a) m) as [v|] eqn:E.
  - exists v. destruct (truthy v) eqn:Ht; simpl.
    + destruct (Hm _ _ E Ht) as [r ->]. eexists. split; [reflexivity|].
      split; [reflexivity|]. eauto.
    + exists true. repeat split. discriminate.
  - exists JNull, true. repeat split. discriminate.
Qed.

Lemma process_entry_total st key item :
  aligned st -> usable_cache (status_cache st) -> well_shaped item ->
  exists st', process_entry fetch st key item = Some st' /\
              usable_cache (status_cache st').
Proof.
  intros Ha (m & Hm & Hvals) (f & Hx & Htype).
  unfold process_entry. rewrite Hx.
  destruct (missing_ids f) eqn:Hv; [exists st; split; [reflexivity | exists m; auto]|].
  destruct (Htype eq_refl) as [type_name Hty]. unfold singular_of. rewrite Hty.
  set (T := get_singular_name type_name).
  destruct (add_to_bucket_total T key item _ (init_buckets_mem T st)) as [st1 Hb].
  rewrite Hb.
  pose proof (bucketed_frame _ _ _ _ _ Hb) as (Hc & _ & _ & _ & Hal).
  destruct (Hal Ha) as [Ha1 _].
  pose proof (add_to_bucket_inv _ _ _ _ _ Hb) as (Htb1 & _).
  assert (Hmem : dict_mem T (hash_buckets st1) = true).
  { rewrite <- (keys_eq_mem _ _ T Ha1), Htb1. unfold dict_mem.
    now rewrite dict_get_set_same. }
  unfold resolve_hash. rewrite Hc, Hm.
  destruct (needs_download_total m (attachment_id f) (timestamp f) Hvals)
    as (ce & stale & Hce & Hn & Hmd5).
  rewrite Hce, Hn. destruct stale.
  - destruct (succeeded _) as [digest|].
    + unfold update_cache. simpl. rewrite Hc, Hm.
      match goal with |- context [add_hash_line T ?h ?i ?s] =>
        destruct (add_hash_line_total T h i s Hmem) as [st' Hadd] end.
      exists st'. split; [exact Hadd|].
      apply add_hash_line_inv in Hadd as (_ & -> & _). simpl.
      eexists. split; [reflexivity|]. intros k v. rewrite dict_get_set.
      destruct (String.eqb k (py_str (attachment_id f))); [|apply Hvals].
      intros Hk _. injection Hk as <-. unfold cache_record. eauto.
    + eexists. split; [reflexivity|]. simpl. rewrite Hc. exists m. auto.
  - destruct (Hmd5 eq_refl) as [md5 Hg]. rewrite Hg.
    destruct (add_hash_line_total T md5 (mod_id f) st1 Hmem) as [st' Hadd].
    exists st'. split; [exact Hadd|].
    apply add_hash_line_inv in Hadd as (_ & -> & _). rewrite Hc. exists m. auto.
Qed.

Lemma process_all_total entries : forall st,
  aligned st -> usable_cache (status_cache st) ->
  (forall k item, In (k, item) entries -> well_shaped item) ->
  exists st', process_all fetch st entries = Some st'.
Proof.
  induction entries as [|[key item] rest IH]; simpl; intros st Ha Hc Hshape; [eauto|].
  destruct (process_entry_total st key item Ha Hc) as (st1 & E & Hc1); [eauto|].
  rewrite E. apply IH; eauto using process_entry_aligned.
Qed.

(** A run over a catalog of well-shaped items, with no status file or a
    usable one, completes and leaves its outputs. *)
Theorem main_completes entries cache_file :
  (forall k item, In (k, item) entries -> well_shaped item) ->
  usable_cache (status_cache (initial cache_file)) ->
  exists out, main fetch (Some (JObj entries)) cache_file = Some out.
Proof.
  intros Hshape Hc.
  destruct (process_all_total entries (initial cache_file) (initial_aligned cache_file)
              Hc Hshape) as [st Hrun].
  exists (save_outputs st). simpl. now rewrite Hrun.
Qed.

End Completion.

Lemma no_cache_is_usable : usable_cache (status_cache (initial None)).
Proof. exists []. split; [reflexivity|]. discriminate. Qed.

(** ** [calculate_md5] and [get_singular_name] *)

Section Md5Facts.

Variable md5 : Type.
Variable md5_new : md5.
Variable update : md5 -> list Byte.byte -> md5.
Variable hexdigest : md5 -> string.

(** What [hashlib] promises of [update]: feeding two pieces one after the
    other is feeding their concatenation, and feeding nothing changes
    nothing. *)
Hypothesis update_app :
  forall h a b, update (update h a) b = update h (a ++ b)%list.
Hypothesis update_nil : forall h, update h [] = h.

Lemma feed_whole size : 0 < size -> forall reads h rest,
  List.length rest < reads -> feed md5 update size reads h rest = update h rest.
Proof.
  intros Hsize. induction reads as [|reads IH]; intros h rest Hlen; [lia|].
  simpl. destruct (firstn size rest) as [|b chunk] eqn:E.
  - destruct rest as [|x rest]; [now rewrite update_nil|].
    destruct size; [lia | discriminate].
  - rewrite IH.
    + rewrite update_app, <- E. now rewrite firstn_skipn.
    + rewrite length_skipn.
      assert (0 < List.length rest)
        by (destruct rest; [destruct size; discriminate | simpl; lia]).
      lia.
Qed.

(** The digest [calculate_md5] returns is the digest of the whole content
    of the file, whatever the size of the chunks it is read in: reading in
    chunks of any positive size, and allowing any number of reads above
    the length of the file, feeds the hash the same bytes. *)
Theorem calculate_md5_is_digest_of_file file :
  calculate_md5 md5 md5_new update hexdigest file = hexdigest (update md5_new file) /\
  forall size reads,
    0 < size -> List.length file < reads ->
    feed md5 update size reads md5_new file = update md5_new file.
Proof.
  split.
  - unfold calculate_md5. rewrite feed_whole; [reflexivity | lia | lia].
  - intros size reads Hsize Hreads. now apply feed_whole.
Qed.

End Md5Facts.

Lemma length_append a b :
  String.length (a ++ b) = String.length a + String.length b.
Proof. induction a as [|c a IH]; simpl; [reflexivity | now rewrite IH]. Qed.

Lemma substring_prefix a b : substring 0 (String.length a) (a ++ b) = a.
Proof.
  induction a as [|c a IH]; simpl.
  - destruct b; reflexivity.
  - now rewrite IH.
Qed.

Lemma substring_suffix a b :
  substring (String.length a) (String.length b) (a ++ b) = b.
Proof.
  induction a as [|c a IH]; simpl; [|exact IH].
  induction b as [|c b IHb]; simpl; [reflexivity | now rewrite IHb].
Qed.

Lemma substring_all s : substring 0 (String.length s) s = s.
Proof. induction s as [|c s IH]; simpl; [reflexivity | now rewrite IH]. Qed.

Lemma substring_split s n :
  n <= String.length s ->
  s = substring 0 n s ++ substring n (String.length s - n) s.
Proof.
  revert n. induction s as [|c s IH]; intros [|n] Hn; simpl in *.
  - reflexivity.
  - lia.
  - now rewrite substring_all.
  - f_equal. apply IH. lia.
Qed.

Lemma endswith_s_iff s : endswith s "s" = true <-> exists t, s = t ++ "s".
Proof.
  unfold endswith. simpl String.length. split.
  - intros H. apply andb_true_iff in H as [Hlen Heq].
    apply Nat.leb_le in Hlen. apply String.eqb_eq in Heq.
    exists (substring 0 (String.length s - 1) s).
    pose proof (substring_split s (String.length s - 1)) as Hs.
    replace (String.length s - (String.length s - 1)) with 1 in Hs by lia.
    rewrite Heq in Hs. apply Hs. lia.
  - intros [t ->]. rewrite length_append. simpl String.length.
    apply andb_true_iff. split; [apply Nat.leb_le; lia|].
    replace (String.length t + 1 - 1) with (String.length t) by lia.
    apply String.eqb_eq. apply (substring_suffix t "s").
Qed.

Lemma drop_last_append t c : drop_last (t ++ String c EmptyString) = t.
Proof.
  unfold drop_last. rewrite length_append. simpl String.length.
  replace (String.length t + 1 - 1) with (String.length t) by lia.
  apply substring_prefix.
Qed.

Lemma get_singular_name_plural t : get_singular_name (t ++ "s") = t.
Proof.
  unfold get_singular_name.
  assert (H : endswith (t ++ "s") "s" = true) by (apply endswith_s_iff; eauto).
  rewrite H. apply drop_last_append.
Qed.

(** [get_singular_name] removes one final s and nothing else: a name that
    is some [t] followed by s gives [t], even when [t] itself ends in s or
    is empty, and any other name is returned as it is. *)
Theorem get_singular_name_strips_one_s type_name :
  (exists t, type_name = t ++ "s" /\ get_singular_name type_name = t) \/
  ((forall t, type_name <> t ++ "s") /\ get_singular_name type_name = type_name).
Proof.
  destruct (endswith type_name "s") eqn:E.
  - left. apply endswith_s_iff in E as [t ->]. exists t. split; [reflexivity|].
    apply get_singular_name_plural.
  - right. split.
    + intros t ->.
      assert (H : endswith (t ++ "s") "s" = true) by (apply endswith_s_iff; eauto).
      congruence.
    + unfold get_singular_name. now rewrite E.
Qed.

(** Two type names get the same normalized name, hence the same pair of
    output files, exactly when they are equal or one is the other followed
    by s, the shorter one not ending in s. *)
Theorem same_singular_name_iff a b :
  get_singular_name a = get_singular_name b <->
  a = b \/ (a = b ++ "s" /\ endswith b "s" = false)
        \/ (b = a ++ "s" /\ endswith a "s" = false).
Proof.
  split.
  - intros H. unfold get_singular_name in H.
    destruct (endswith a "s") eqn:Ea, (endswith b "s") eqn:Eb.
    + apply endswith_s_iff in Ea as [ta ->]. apply endswith_s_iff in Eb as [tb ->].
      rewrite !drop_last_append in H. left. now subst.
    + apply endswith_s_iff in Ea as [ta ->]. rewrite drop_last_append in H.
      right. left. subst. auto.
    + apply endswith_s_iff in Eb as [tb ->]. rewrite drop_last_append in H.
      right. right. subst. auto.
    + auto.
  - intros [->|[[-> Hb]|[-> Ha]]]; [reflexivity| |].
    + rewrite get_singular_name_plural. unfold get_singular_name. now rewrite Hb.
    + rewrite get_singular_name_plural. unfold get_singular_name. now rewrite Ha.
Qed.

(** ** More about a whole run *)

Section Requests.

Variable fetch : list download -> string -> response.

(** The loop body makes at most one request, for a valid entry. *)
Lemma process_entry_requests st key item st' :
  process_entry fetch st key item = Some st' ->
  downloads st' = downloads st \/
  exists f, extract item = Some f /\ missing_ids f = false /\
            downloads st' = (downloads st ++ [attempt fetch st key f])%list.
Proof.
  intros H.
  apply process_entry_inv in H as (f & Hx & [[_ ->]|(Hv & T & st1 & _ & Hb & Hr)]);
    [auto|].
  apply bucketed_cache in Hb as (_ & _ & Hd).
  destruct Hr as [ce h _ _ _ Hadd | ce h m stc _ _ _ _ -> Hadd | ce _ _ _ ->].
  - apply add_hash_line_inv in Hadd as (_ & _ & _ & Hd' & _). left. congruence.
  - apply add_hash_line_inv in Hadd as (_ & _ & _ & Hd' & _). simpl in Hd'.
    right. exists f. repeat split; auto. unfold attempt. now rewrite Hd', Hd.
  - right. exists f. repeat split; auto. unfold attempt. simpl. now rewrite Hd.
Qed.

Lemma process_all_requests entries : forall st st',
  process_all fetch st entries = Some st' ->
  exists ds,
    downloads st' = (downloads st ++ ds)%list /\
    (forall d, In d ds ->
       exists item f,
         In (entry_key d, item) entries /\ extract item = Some f /\
         missing_ids f = false /\
         zip_url d = MOD_DOWNLOAD_TEMPLATE (attachment_id f)) /\
    (NoDup (keys entries) -> NoDup (map entry_key ds)).
Proof.
  induction entries as [|[key item] rest IH]; simpl; intros st st' H.
  - injection H as <-. exists []. rewrite app_nil_r. repeat split.
    + intros d [].
    + intros _. constructor.
  - destruct (process_entry fetch st key item) as [st1|] eqn:E; [|discriminate].
    destruct (IH _ _ H) as (ds & Hds & Hvalid & Hnd).
    assert (Hrest : forall d, In d ds ->
              exists item0 f,
                ((key, item) = (entry_key d, item0) \/ In (entry_key d, item0) rest) /\
                extract item0 = Some f /\ missing_ids f = false /\
                zip_url d = MOD_DOWNLOAD_TEMPLATE (attachment_id f)).
    { intros d Hd. destruct (Hvalid d Hd) as (i & f & Hi & Hrest). exists i, f. auto. }
    assert (Hkeys : forall d, In d ds -> In (entry_key d) (keys rest)).
    { intros d Hd. destruct (Hvalid d Hd) as (i & f & Hi & _).
      change (entry_key d) with (fst (entry_key d, i)). now apply in_map. }
    destruct (process_entry_requests _ _ _ _ E) as [Hsame|(f & Hx & Hv & Hone)].
    + exists ds. rewrite Hds, Hsame. repeat split; auto.
      intros Hnodup. inversion Hnodup; auto.
    + exists (attempt fetch st key f :: ds). rewrite Hds, Hone, <- app_assoc.
      repeat split; auto.
      * intros d [<-|Hd]; [|auto]. exists item, f. simpl. auto.
      * intros Hnodup. inversion Hnodup as [|? ? Hnotin Hnd']; subst. simpl.
        constructor; [|auto].
        intros Hin. apply in_map_iff in Hin as (d & Hk & Hd).
        apply Hnotin. rewrite <- Hk. auto.
Qed.

(** A run requests an archive only for a valid entry of the catalog, at
    the address made of the attachment id of the entry, and for no entry
    twice. *)
Theorem requests_only_for_valid_entries entries cache_file out :
  NoDup (keys entries) ->
  main fetch (Some (JObj entries)) cache_file = Some out ->
  NoDup (map entry_key (requested out)) /\
  forall d, In d (requested out) ->
    exists item f,
      In (entry_key d, item) entries /\ extract item = Some f /\
      missing_ids f = false /\
      zip_url d = MOD_DOWNLOAD_TEMPLATE (attachment_id f).
Proof.
  intros Hnd H. apply main_inv in H as (st & Hrun & ->).
  destruct (process_all_requests _ _ _ Hrun) as (ds & Hds & Hvalid & Hnodup).
  simpl in *. subst. auto.
Qed.

End Requests.

Lemma type_of_item_valid item T : type_of_item item = Some T <-> valid_of_type item T.
Proof.
  unfold type_of_item, valid_of_type. split.
  - destruct (extract item) as [f|]; [|discriminate].
    destruct (missing_ids f) eqn:E; [discriminate|]. eauto.
  - intros (f & -> & -> & HT). exact HT.
Qed.

Section Order.

Variable fetch : list download -> string -> response.

Lemma process_entry_bucket_keys st key item st' :
  aligned st -> process_entry fetch st key item = Some st' -> fresh_key key st ->
  forall T,
    keys (entries_of T st') =
    (keys (entries_of T st) ++ if has_type T (key, item) then [key] else [])%list.
Proof.
  intros Ha H Hfresh T. unfold has_type, type_of_item. simpl.
  pose proof (process_entry_inv _ _ _ _ _ H) as (f & Hx & [[Hm ->]|(Hv & _)]);
    rewrite Hx.
  - rewrite Hm. now rewrite app_nil_r.
  - rewrite Hv.
    destruct (valid_entry_inv _ _ _ _ _ _ Ha Hx Hv H) as (T0 & HT0 & He & _).
    rewrite HT0, He, (String.eqb_sym T0 T).
    destruct (String.eqb_spec T T0) as [->|]; [|now rewrite app_nil_r].
    rewrite keys_dict_set.
    assert (Hmem : dict_mem key (entries_of T0 st) = false)
      by (apply dict_mem_false, Hfresh).
    now rewrite Hmem.
Qed.

Lemma process_all_bucket_keys entries : forall st st',
  aligned st -> process_all fetch st entries = Some st' ->
  NoDup (keys entries) -> (forall k, In k (keys entries) -> fresh_key k st) ->
  forall T,
    keys (entries_of T st') =
    (keys (entries_of T st) ++ map fst (filter (has_type T) entries))%list.
Proof.
  induction entries as [|[key item] rest IH]; simpl; intros st st' Ha H Hnd Hfresh T.
  - injection H as <-. now rewrite app_nil_r.
  - destruct (process_entry fetch st key item) as [st1|] eqn:E; [|discriminate].
    inversion Hnd as [|? ? Hnotin Hnd']; subst.
    assert (Hkey : fresh_key key st) by (apply Hfresh; auto).
    rewrite (IH st1 st'); eauto using process_entry_aligned.
    + rewrite (process_entry_bucket_keys _ _ _ _ Ha E Hkey), <- app_assoc.
      now destruct (has_type T (key, item)).
    + intros k' Hin. eapply process_entry_fresh; eauto.
      intros ->. contradiction.
Qed.

(** The keys of a per-type JSON output are the keys of the valid entries
    of that normalized type, in the order of the catalog. *)
Theorem bucket_keys_follow_catalog_order entries cache_file out T bucket :
  NoDup (keys entries) ->
  main fetch (Some (JObj entries)) cache_file = Some out ->
  dict_get T (saved_json out) = Some bucket ->
  keys bucket = map fst (filter (has_type T) entries).
Proof.
  intros Hnd H Hb. apply main_inv in H as (st & Hrun & ->). simpl in Hb.
  rewrite <- (entries_of_get _ _ _ Hb).
  now rewrite (process_all_bucket_keys entries _ _ (initial_aligned cache_file) Hrun Hnd
                 (fun k _ => initial_fresh cache_file k) T).
Qed.

End Order.

Section TypeTable.

Variable fetch : list download -> string -> response.

(** The table of JSON buckets after a valid entry, from the table before. *)
Lemma type_buckets_step st key item st' f T :
  extract item = Some f -> missing_ids f = false -> singular_of f = Some T ->
  process_entry fetch st key item = Some st' ->
  type_buckets st' =
  dict_set T (dict_set key item (entries_of T st))
           (if dict_mem T (type_buckets st) then type_buckets st
            else dict_set T [] (type_buckets st)).
Proof.
  intros Hx Hv HT H.
  apply process_entry_inv in H as (f' & Hx' & [[Hm _]|(_ & T' & st1 & HT' & Hb & Hr)]);
    rewrite Hx in Hx'; injection Hx' as <-; [congruence|].
  rewrite HT in HT'. injection HT' as <-.
  apply resolved_frame in Hr as (-> & _).
  apply add_to_bucket_inv in Hb as (-> & _).
  rewrite init_buckets_entries. unfold init_buckets.
  now destruct (dict_mem T (type_buckets st)).
Qed.

Lemma dict_set_not_nil {V} k (v : V) d : dict_set k v d <> [].
Proof. destruct d as [|[k' v'] d]; simpl; [|destruct (String.eqb k k')]; discriminate. Qed.

(** The types of the table stay pairwise distinct and no bucket is empty. *)
Lemma process_entry_table st key item st' :
  process_entry fetch st key item = Some st' ->
  NoDup (keys (type_buckets st)) /\
  (forall T b, dict_get T (type_buckets st) = Some b -> b <> []) ->
  NoDup (keys (type_buckets st')) /\
  (forall T b, dict_get T (type_buckets st') = Some b -> b <> []).
Proof.
  intros H [Hnd Hne].
  pose proof (process_entry_inv _ _ _ _ _ H) as (f & Hx & [[_ ->]|(Hv & T & _ & HT & _)]);
    [auto|].
  rewrite (type_buckets_step _ _ _ _ _ _ Hx Hv HT H). split.
  - apply NoDup_keys_dict_set.
    destruct (dict_mem T (type_buckets st)); [|apply NoDup_keys_dict_set]; exact Hnd.
  - intros T' b. rewrite dict_get_set.
    destruct (String.eqb_spec T' T) as [->|Hne'].
    + intros Hb. injection Hb as <-. apply dict_set_not_nil.
    + destruct (dict_mem T (type_buckets st)); [apply Hne|].
      rewrite dict_get_set_other by exact Hne'. apply Hne.
Qed.

Lemma process_all_table entries : forall st st',
  process_all fetch st entries = Some st' ->
  NoDup (keys (type_buckets st)) /\
  (forall T b, dict_get T (type_buckets st) = Some b -> b <> []) ->
  NoDup (keys (type_buckets st')) /\
  (forall T b, dict_get T (type_buckets st') = Some b -> b <> []).
Proof.
  induction entries as [|[key item] rest IH]; simpl; intros st st' H Hinv.
  - now injection H as <-.
  - destruct (process_entry fetch st key item) as [st1|] eqn:E; [|discriminate].
    eauto using process_entry_table.
Qed.

(** The types that have a bucket are the normalized types of the valid
    entries. *)
Lemma bucket_types entries cache_file st T :
  NoDup (keys entries) ->
  process_all fetch (initial cache_file) entries = Some st ->
  In T (keys (type_buckets st)) <->
  exists k item, In (k, item) entries /\ valid_of_type item T.
Proof.
  intros Hnd Hrun.
  pose proof (process_all_bucket fetch entries _ _ (initial_aligned cache_file) Hrun Hnd
                (fun k _ => initial_fresh cache_file k)) as Hchar.
  destruct (process_all_table _ _ _ Hrun) as [_ Hne].
  { split; [constructor | discriminate]. }
  split.
  - intros Hin. apply dict_get_keys in Hin as [b Hb].
    destruct b as [|[k v] b']; [now apply Hne in Hb|].
    assert (Hk : dict_get k (entries_of T st) = Some v).
    { unfold entries_of. rewrite Hb. simpl. now rewrite String.eqb_refl. }
    apply Hchar in Hk as [Hk|[Hi Hval]]; [discriminate|]. eauto.
  - intros (k & item & Hi & Hval).
    assert (Hk : dict_get k (entries_of T st) = Some item) by (apply Hchar; auto).
    apply entries_of_some in Hk as (b & Hb & _). apply dict_get_keys. eauto.
Qed.

(** The per-type outputs come in pairs, one pair for each normalized type
    that some valid entry has: the JSON files and the hash files are for
    the same types in the same order, no type comes twice and no JSON
    bucket is empty. *)
Theorem every_type_has_both_files entries cache_file out :
  NoDup (keys entries) ->
  main fetch (Some (JObj entries)) cache_file = Some out ->
  keys (saved_json out) = keys (saved_hash out) /\
  NoDup (keys (saved_json out)) /\
  (forall T bucket, dict_get T (saved_json out) = Some bucket -> bucket <> []) /\
  (forall T, In T (keys (saved_json out)) <->
             exists k item, In (k, item) entries /\ valid_of_type item T).
Proof.
  intros Hnd H. apply main_inv in H as (st & Hrun & ->). simpl.
  destruct (process_all_table _ _ _ Hrun) as [Hnodup Hne].
  { split; [constructor | discriminate]. }
  repeat split; auto.
  - apply (process_all_aligned fetch entries _ _ Hrun (initial_aligned cache_file)).
  - apply (bucket_types entries cache_file st T Hnd Hrun).
  - apply (bucket_types entries cache_file st T Hnd Hrun).
Qed.

End TypeTable.

Section CatalogOnly.

Variables fetch fetch' : list download -> string -> response.

Lemma process_entry_same_table st1 st1' st2 st2' key item :
  process_entry fetch st1 key item = Some st1' ->
  process_entry fetch' st2 key item = Some st2' ->
  type_buckets st1 = type_buckets st2 ->
  type_buckets st1' = type_buckets st2'.
Proof.
  intros H1 H2 Heq.
  pose proof (process_entry_inv _ _ _ _ _ H1) as (f & Hx & [[Hm ->]|(Hv & T & _ & HT & _)]).
  - apply process_entry_inv in H2 as (f' & Hx' & [[_ ->]|(Hv' & _)]); [exact Heq|].
    congruence.
  - rewrite (type_buckets_step _ _ _ _ _ _ _ Hx Hv HT H1),
            (type_buckets_step _ _ _ _ _ _ _ Hx Hv HT H2).
    unfold entries_of. now rewrite Heq.
Qed.

Lemma process_all_same_table entries : forall st1 st1' st2 st2',
  process_all fetch st1 entries = Some st1' ->
  process_all fetch' st2 entries = Some st2' ->
  type_buckets st1 = type_buckets st2 ->
  type_buckets st1' = type_buckets st2'.
Proof.
  induction entries as [|[key item] rest IH]; simpl; intros st1 st1' st2 st2' H1 H2 Heq.
  - injection H1 as <-. injection H2 as <-. exact Heq.
  - destruct (process_entry fetch st1 key item) as [s1|] eqn:E1; [|discriminate].
    destruct (process_entry fetch' st2 key item) as [s2|] eqn:E2; [|discriminate].
    eauto using process_entry_same_table.
Qed.

(** The per-type JSON outputs are made from the catalog alone: two runs on
    the same catalog that complete write the same JSON buckets, and hash
    files for the same types, whatever their status files hold and
    whatever the archive endpoint answers. *)
Theorem json_buckets_depend_on_catalog_only entries cache_file cache_file' out out' :
  main fetch (Some (JObj entries)) cache_file = Some out ->
  main fetch' (Some (JObj entries)) cache_file' = Some out' ->
  saved_json out = saved_json out' /\
  keys (saved_hash out) = keys (saved_hash out').
Proof.
  intros H H'. apply main_inv in H as (st & Hrun & ->).
  apply main_inv in H' as (st' & Hrun' & ->). simpl.
  pose proof (process_all_same_table entries _ _ _ _ Hrun Hrun' eq_refl) as Heq.
  split; [exact Heq|].
  rewrite <- (process_all_aligned fetch entries _ _ Hrun (initial_aligned cache_file)).
  rewrite <- (process_all_aligned fetch' entries _ _ Hrun' (initial_aligned cache_file')).
  now rewrite Heq.
Qed.

End CatalogOnly.

Section CacheLife.

Variable fetch : list download -> string -> response.

(** The loop body leaves the cache alone or sets the record of the
    attachment of its entry. *)
Lemma process_entry_cache st key item st' :
  process_entry fetch st key item = Some st' ->
  status_cache st' = status_cache st \/
  exists m f current_md5,
    status_cache st = JObj m /\ extract item = Some f /\ missing_ids f = false /\
    status_cache st' =
      JObj (dict_set (py_str (attachment_id f)) (cache_record f current_md5) m).
Proof.
  intros H.
  apply process_entry_inv in H as (f & Hx & [[_ ->]|(Hv & T & st1 & _ & Hb & Hr)]);
    [auto|].
  apply bucketed_cache in Hb as (Hc & _ & _).
  destruct Hr as [ce h _ _ _ Hadd | ce h m stc _ _ _ Hm -> Hadd | ce _ _ _ ->].
  - apply add_hash_line_inv in Hadd as (_ & Hc' & _). left. congruence.
  - apply add_hash_line_inv in Hadd as (_ & Hc' & _). simpl in Hc'.
    right. exists m, f, h. repeat split; auto. congruence.
  - left. exact Hc.
Qed.

Lemma process_all_cache entries : forall st st' m,
  process_all fetch st entries = Some st' -> status_cache st = JObj m ->
  exists m' new,
    status_cache st' = JObj m' /\ keys m' = (keys m ++ new)%list /\
    (forall a, In a new -> In a (attachment_keys entries)) /\
    (forall a, ~ In a (attachment_keys entries) -> dict_get a m' = dict_get a m).
Proof.
  induction entries as [|[key item] rest IH]; simpl; intros st st' m H Hm.
  - injection H as <-. exists m, []. rewrite app_nil_r. repeat split; auto.
  - destruct (process_entry fetch st key item) as [st1|] eqn:E; [|discriminate].
    destruct (process_entry_cache _ _ _ _ E) as [Hsame|(m0 & f & h & Hm0 & Hx & Hv & Hset)].
    + destruct (IH st1 st' m H) as (m' & new & Hm' & Hk & Hnew & Hframe); [congruence|].
      exists m', new. repeat split; auto.
      * intros a Ha. apply in_or_app. auto.
      * intros a Ha. apply Hframe. intros Hin. apply Ha, in_or_app. auto.
    + rewrite Hm in Hm0. injection Hm0 as <-.
      assert (Hkey : attachment_key_of item = [py_str (attachment_id f)])
        by (unfold attachment_key_of; now rewrite Hx, Hv).
      destruct (IH st1 st' _ H Hset) as (m' & new & Hm' & Hk & Hnew & Hframe).
      rewrite keys_dict_set in Hk.
      destruct (dict_mem (py_str (attachment_id f)) m).
      * exists m', new. repeat split; auto.
        -- intros a Ha. apply in_or_app. auto.
        -- intros a Ha. rewrite Hframe by (intros Hin; apply Ha, in_or_app; auto).
           apply dict_get_set_other. intros ->. apply Ha, in_or_app. left.
           rewrite Hkey. now left.
      * exists m', (py_str (attachment_id f) :: new). repeat split; auto.
        -- rewrite Hk, <- app_assoc. reflexivity.
        -- intros a [<-|Ha]; apply in_or_app; [left; rewrite Hkey; now left | auto].
        -- intros a Ha. rewrite Hframe by (intros Hin; apply Ha, in_or_app; auto).
           apply dict_get_set_other. intros ->. apply Ha, in_or_app. left.
           rewrite Hkey. now left.
Qed.

(** No record leaves the cache: when a run writes the status cache, the
    keys it had come first and in their order, followed by new keys, all
    of them attachment keys of valid entries; and what the cache holds
    under any other key is what it held. *)
Theorem cache_records_are_never_deleted entries cache_file out m0 c :
  status_cache (initial cache_file) = JObj m0 ->
  main fetch (Some (JObj entries)) cache_file = Some out ->
  saved_cache out = Some c ->
  exists m new,
    c = JObj m /\ keys m = (keys m0 ++ new)%list /\
    (forall a, In a new -> In a (attachment_keys entries)) /\
    (forall a, ~ In a (attachment_keys entries) -> dict_get a m = dict_get a m0).
Proof.
  intros Hm0 H Hc. apply main_inv in H as (st & Hrun & ->).
  destruct (process_all_cache _ _ _ _ Hrun Hm0) as (m & new & Hm & Hrest).
  exists m, new. split; [|exact Hrest].
  unfold save_outputs in Hc. simpl in Hc.
  destruct (updates_made st); [|discriminate]. congruence.
Qed.

(** A download that went through is remembered: the loop body stores under
    the attachment id the remote timestamp, the digest and the mod id, and
    marks the run as updated.  Looked up again with the same remote
    timestamp, that record asks for a download only when the timestamp is
    not equal to itself, as a NaN is; for every other timestamp it asks for
    none. *)
Theorem downloaded_record_is_fresh st key item st' d current_md5 :
  process_entry fetch st key item = Some st' ->
  downloads st' = (downloads st ++ [d])%list ->
  succeeded (outcome d) = Some current_md5 ->
  exists f m,
    extract item = Some f /\
    status_cache st' = JObj m /\
    dict_get (py_str (attachment_id f)) m
    = Some (JObj [("timestamp", timestamp f); ("md5", JStr current_md5);
                  ("id", mod_id f)]) /\
    updates_made st' = true /\
    needs_download (JObj [("timestamp", timestamp f); ("md5", JStr current_md5);
                          ("id", mod_id f)]) (timestamp f)
    = Some (negb (py_eq (timestamp f) (timestamp f))).
Proof.
  intros H Hd Hs.
  apply process_entry_inv in H as (f & Hx & [[_ ->]|(Hv & T & st1 & _ & Hb & Hr)]).
  - now apply app_tail_neq in Hd.
  - apply bucketed_cache in Hb as (_ & _ & Hd1).
    destruct Hr as [ce h _ _ _ Hadd | ce h m stc _ _ Hs' _ -> Hadd | ce _ _ Hs' ->].
    + apply add_hash_line_inv in Hadd as (_ & _ & _ & Hd' & _).
      rewrite Hd', Hd1 in Hd. now apply app_tail_neq in Hd.
    + apply add_hash_line_inv in Hadd as (_ & Hc' & Hu' & Hd' & _).
      simpl in Hc', Hu', Hd'.
      rewrite Hd', Hd1 in Hd. apply app_inj_tail in Hd as [_ <-]. simpl in Hs.
      rewrite Hd1 in Hs'. rewrite Hs' in Hs. injection Hs as <-.
      exists f. eexists. split; [exact Hx|]. split; [exact Hc'|].
      split; [apply dict_get_set_same|]. split; [exact Hu'|]. reflexivity.
    + simpl in Hd. rewrite Hd1 in Hd. apply app_inj_tail in Hd as [_ <-].
      simpl in Hs. rewrite Hd1 in Hs'. congruence.
Qed.

End CacheLife.

Section RunFacts.

Variable fetch : list download -> string -> response.

(** While the cache has a record with the remote timestamp for every valid
    entry still to come, the pass requests nothing and leaves the cache. *)
Lemma process_all_offline entries : forall st st',
  process_all fetch st entries = Some st' ->
  (forall k item f,
     In (k, item) entries -> extract item = Some f -> missing_ids f = false ->
     exists record cached,
       cached_record (status_cache st) (attachment_id f) = Some record /\
       py_get record "timestamp" JNull = Some cached /\
       py_eq cached (timestamp f) = true) ->
  downloads st' = downloads st /\ status_cache st' = status_cache st /\
  updates_made st' = updates_made st.
Proof.
  induction entries as [|[key item] rest IH]; simpl; intros st st' H Hfresh.
  - injection H as <-. auto.
  - destruct (process_entry fetch st key item) as [st1|] eqn:E; [|discriminate].
    assert (Hstep : downloads st1 = downloads st /\ status_cache st1 = status_cache st /\
                    updates_made st1 = updates_made st).
    { apply process_entry_inv in E as (f & Hx & [[_ ->]|(Hv & T & sb & _ & Hb & Hr)]);
        [auto|].
      destruct (Hfresh key item f (or_introl eq_refl) Hx Hv) as (r & c & Hr1 & Hg & He).
      apply bucketed_cache in Hb as (Hc & Hu & Hd).
      assert (Hhit : forall ce, cache_lookup (status_cache sb) (attachment_id f) = Some ce ->
                                needs_download ce (timestamp f) = Some true -> False).
      { intros ce Hce Hn. rewrite Hc in Hce. unfold cached_record in Hr1.
        rewrite Hce in Hr1. destruct (truthy ce) eqn:Ht; [|discriminate].
        injection Hr1 as <-.
        assert (Hn' : needs_download ce (timestamp f) = Some false)
          by (apply needs_download_false; eauto).
        congruence. }
      destruct Hr as [ce h _ _ _ Hadd | ce h m stc Hce Hn _ _ _ _ | ce Hce Hn _ _].
      - apply add_hash_line_inv in Hadd as (_ & Hc' & Hu' & Hd' & _).
        repeat split; congruence.
      - destruct (Hhit ce Hce Hn).
      - destruct (Hhit ce Hce Hn). }
    destruct Hstep as (Hd & Hc & Hu).
    destruct (IH st1 st' H) as (Hd' & Hc' & Hu').
    { intros k it f Hin Hx Hv. rewrite Hc. apply (Hfresh k it f); auto. }
    repeat split; congruence.
Qed.

(** A run whose cache has, for every valid entry, a record with the remote
    timestamp makes no request and does not write the status cache,
    whatever the archive endpoint would answer. *)
Theorem fully_cached_run_is_offline entries cache_file out :
  main fetch (Some (JObj entries)) cache_file = Some out ->
  (forall k item f,
     In (k, item) entries -> extract item = Some f -> missing_ids f = false ->
     exists record cached,
       cached_record (status_cache (initial cache_file)) (attachment_id f) = Some record /\
       py_get record "timestamp" JNull = Some cached /\
       py_eq cached (timestamp f) = true) ->
  requested out = [] /\ saved_cache out = None.
Proof.
  intros H Hfresh. apply main_inv in H as (st & Hrun & ->).
  destruct (process_all_offline _ _ _ Hrun Hfresh) as (Hd & _ & Hu).
  unfold save_outputs. simpl. rewrite Hd, Hu. auto.
Qed.

(** Hash lines are added at the end of the list of their type, at most one
    for each valid entry of that type. *)
Lemma process_all_lines_grow entries T : forall st st',
  aligned st -> process_all fetch st entries = Some st' ->
  exists more,
    lines_of T st' = (lines_of T st ++ more)%list /\
    List.length more <= List.length (filter (has_type T) entries).
Proof.
  induction entries as [|[key item] rest IH]; simpl; intros st st' Ha H.
  - injection H as <-. exists []. now rewrite app_nil_r.
  - destruct (process_entry fetch st key item) as [st1|] eqn:E; [|discriminate].
    destruct (IH st1 st' (process_entry_aligned _ _ _ _ _ E Ha) H) as (more & Hmore & Hlen).
    destruct (process_entry_lines fetch st key item st1 Ha E T)
      as [Hsame|(f & h & Hx & Hv & HT & _ & _ & Hline)].
    + exists more. rewrite Hmore, Hsame. split; [reflexivity|].
      destruct (has_type T (key, item)); simpl; lia.
    + exists (hash_line h (mod_id f) :: more). rewrite Hmore, Hline, <- app_assoc.
      split; [reflexivity|].
      assert (Hty : has_type T (key, item) = true).
      { unfold has_type, type_of_item. simpl. rewrite Hx, Hv, HT. apply String.eqb_refl. }
      rewrite Hty. simpl. lia.
Qed.

(** The hash lines a run has after a first part of the catalog stay where
    they are: the rest of the catalog adds its lines after them, at most
    one for each of its valid entries of the type. *)
Theorem hash_lines_grow_at_the_end pre post cache_file out T :
  main fetch (Some (JObj (pre ++ post)%list)) cache_file = Some out ->
  exists st more,
    process_all fetch (initial cache_file) pre = Some st /\
    match dict_get T (saved_hash out) with Some lines => lines | None => [] end
    = (lines_of T st ++ more)%list /\
    List.length more <= List.length (filter (has_type T) post).
Proof.
  intros H. apply main_inv in H as (st' & Hrun & ->).
  rewrite process_all_app in Hrun.
  destruct (process_all fetch (initial cache_file) pre) as [st|] eqn:Hpre; [|discriminate].
  pose proof (process_all_aligned _ _ _ _ Hpre (initial_aligned cache_file)) as Ha.
  destruct (process_all_lines_grow post T st st' Ha Hrun) as (more & Hmore & Hlen).
  exists st, more. auto.
Qed.

End RunFacts.

Lemma append_inj_l a b c : a ++ c = b ++ c -> a = b.
Proof.
  intros H.
  assert (Hlen : String.length a = String.length b).
  { apply (f_equal String.length) in H. rewrite !length_append in H. lia. }
  revert b H Hlen. induction a as [|x a IH]; intros [|y b] H Hlen; simpl in *;
    try discriminate; [reflexivity|].
  injection H as -> H. f_equal. apply IH; [exact H | lia].
Qed.

Lemma hash_file_name_is_not_status_file t : t ++ "_hash.txt" <> STATUS_FILE.
Proof.
  intros H.
  assert (Hlen : String.length t = 8).
  { apply (f_equal String.length) in H. rewrite length_append in H. simpl in H. lia. }
  pose proof (substring_prefix t "_hash.txt") as Hp. rewrite H, Hlen in Hp.
  rewrite <- Hp in H. vm_compute in H. discriminate.
Qed.

Section StatusFile.

Variable fetch : list download -> string -> response.

(** The per-type files, which are written after the status cache, have
    names made of the types: one of them has the name of the status file
    exactly when some valid entry of the catalog has the normalized type
    status_cache. *)
Theorem type_file_replaces_status_file_iff entries cache_file out :
  NoDup (keys entries) ->
  main fetch (Some (JObj entries)) cache_file = Some out ->
  In STATUS_FILE (map fst (output_files out)) <->
  exists k item, In (k, item) entries /\ valid_of_type item "status_cache".
Proof.
  intros Hnd H. apply main_inv in H as (st & Hrun & ->).
  rewrite <- (bucket_types fetch entries cache_file st "status_cache" Hnd Hrun).
  unfold output_files, save_outputs. simpl. rewrite map_app, in_app_iff. split.
  - intros [Hin|Hin]; apply in_map_iff in Hin as ((name & content) & Hname & Hin);
      simpl in Hname; subst name.
    + apply in_map_iff in Hin as ((T & b) & Hfile & Hin). simpl in Hfile.
      injection Hfile as Hname _.
      apply (append_inj_l T "status_cache" ".json") in Hname. subst T.
      change "status_cache" with (fst ("status_cache", b)). now apply in_map.
    + apply in_map_iff in Hin as ((T & l) & Hfile & Hin). simpl in Hfile.
      injection Hfile as Hname _. now apply hash_file_name_is_not_status_file in Hname.
  - intros Hin. left. apply in_map_iff in Hin as ((T & b) & HT & Hin). simpl in HT.
    subst T. apply in_map_iff. exists (json_file ("status_cache", b)). split; [reflexivity|].
    now apply in_map.
Qed.

End StatusFile.

(** ** The files of a run *)

Lemma dict_get_app {V} k (l l' : dict V) :
  dict_get k (l ++ l')%list =
  match dict_get k l with Some v => Some v | None => dict_get k l' end.
Proof.
  induction l as [|[k' v'] l IH]; simpl; [reflexivity|].
  now destruct (String.eqb k k').
Qed.

Section Writes.

Variable writable : string -> bool.

Lemma write_files_returned files : forall d,
  returned (write_files writable files d) = true <->
  forall name, In name (map fst files) -> writable name = true.
Proof.
  induction files as [|[name c] rest IH]; simpl; intros d.
  - split; [intros _ name [] | reflexivity].
  - destruct (writable name) eqn:E; simpl.
    + rewrite IH. split.
      * intros H n [Hn|Hin]; [now subst n | auto].
      * intros H n Hin. apply H. auto.
    + split; [discriminate|]. intros H. rewrite <- E. apply H. auto.
Qed.

(** The files written are the first of the files to write. *)
Lemma write_files_prefix files : forall d,
  exists rest, files = (written (write_files writable files d) ++ rest)%list.
Proof.
  induction files as [|[name c] rest IH]; simpl; intros d; [exists []; reflexivity|].
  destruct (writable name); simpl.
  - destruct (IH (dict_set name c d)) as [rest' H]. exists rest'. now rewrite <- H.
  - eauto.
Qed.

Lemma written_names files d name :
  In name (map fst (written (write_files writable files d))) -> In name (map fst files).
Proof.
  destruct (write_files_prefix files d) as [rest H]. intros Hin.
  rewrite H, map_app. apply in_or_app. auto.
Qed.

(** A file that is not to be written is left as it was. *)
Lemma write_files_untouched files : forall d name,
  ~ In name (map fst files) ->
  dict_get name (disk_after (write_files writable files d)) = dict_get name d.
Proof.
  induction files as [|[n c] rest IH]; simpl; intros d name H; [reflexivity|].
  destruct (writable n); simpl; [|reflexivity].
  rewrite IH by tauto. apply dict_get_set_other. intros ->. tauto.
Qed.

(** Of the files written under one name the last one stays. *)
Lemma write_files_last files : forall d name,
  dict_get name (disk_after (write_files writable files d)) =
  match dict_get name (rev (written (write_files writable files d))) with
  | Some c => Some c
  | None => dict_get name d
  end.
Proof.
  induction files as [|[n c] rest IH]; simpl; intros d name; [reflexivity|].
  destruct (writable n); simpl; [|reflexivity].
  rewrite IH, dict_get_app.
  destruct (dict_get name (rev (written (write_files writable rest (dict_set n c d)))));
    [reflexivity|].
  simpl. rewrite dict_get_set. now destruct (String.eqb name n).
Qed.

(** Which files are written, and whether all are, does not depend on what
    the directory holds. *)
Lemma write_files_indep files : forall d d',
  written (write_files writable files d) = written (write_files writable files d') /\
  returned (write_files writable files d) = returned (write_files writable files d').
Proof.
  induction files as [|[n c] rest IH]; simpl; intros d d'; [auto|].
  destruct (writable n); simpl; [|auto].
  destruct (IH (dict_set n c d) (dict_set n c d')) as [-> ->]. auto.
Qed.

(** Writing the same files once more changes nothing. *)
Lemma write_files_again files d :
  returned (write_files writable files (disk_after (write_files writable files d)))
  = returned (write_files writable files d) /\
  written (write_files writable files (disk_after (write_files writable files d)))
  = written (write_files writable files d) /\
  forall name,
    dict_get name
      (disk_after (write_files writable files (disk_after (write_files writable files d))))
    = dict_get name (disk_after (write_files writable files d)).
Proof.
  destruct (write_files_indep files (disk_after (write_files writable files d)) d)
    as [Hw Hr].
  repeat split; auto.
  intros name. rewrite write_files_last, Hw.
  destruct (dict_get name (rev (written (write_files writable files d)))) as [c|] eqn:E;
    [|reflexivity].
  now rewrite (write_files_last files d name), E.
Qed.

End Writes.

Section RunOnDisk.

Variable fetch : list download -> string -> response.
Variable writable : string -> bool.

(** A type gets a bucket from a valid entry of that normalized type. *)
Lemma process_all_types entries T : forall st st',
  process_all fetch st entries = Some st' ->
  In T (keys (type_buckets st')) ->
  In T (keys (type_buckets st)) \/
  exists k item, In (k, item) entries /\ valid_of_type item T.
Proof.
  induction entries as [|[key item] rest IH]; simpl; intros st st' H Hin.
  - injection H as <-. auto.
  - destruct (process_entry fetch st key item) as [st1|] eqn:E; [|discriminate].
    destruct (IH st1 st' H Hin) as [Hin1|(k & it & Hi & Hval)]; [|right; eauto].
    destruct (process_entry_inv _ _ _ _ _ E)
      as (f & Hx & [[_ ->]|(Hv & T0 & _ & HT & _)]); [auto|].
    rewrite (type_buckets_step fetch _ _ _ _ _ _ Hx Hv HT E) in Hin1.
    apply dict_get_keys in Hin1 as [b Hb]. rewrite dict_get_set in Hb.
    destruct (String.eqb_spec T T0) as [->|Hne].
    + right. exists key, item. split; [auto|]. exists f. auto.
    + left. apply dict_get_keys.
      destruct (dict_mem T0 (type_buckets st)); [eauto|].
      rewrite dict_get_set_other in Hb by exact Hne. eauto.
Qed.

(** Without a valid entry of type [status_cache] no per-type file has the
    name of the status file. *)
Lemma type_files_spare_status_file entries cache_file out :
  no_status_type entries ->
  main fetch (Some (JObj entries)) cache_file = Some out ->
  ~ In STATUS_FILE (map fst (output_files out)).
Proof.
  intros Hno H. apply main_inv in H as (st & Hrun & ->).
  unfold output_files, save_outputs. simpl. rewrite map_app, in_app_iff.
  intros [Hin|Hin]; apply in_map_iff in Hin as ((name & content) & Hname & Hin);
    simpl in Hname; subst name.
  - apply in_map_iff in Hin as ((T & b) & Hfile & Hin). simpl in Hfile.
    injection Hfile as Hname _.
    apply (append_inj_l T "status_cache" ".json") in Hname. subst T.
    assert (HT : In "status_cache" (keys (type_buckets st)))
      by (change "status_cache" with (fst ("status_cache", b)); now apply in_map).
    destruct (process_all_types entries "status_cache" _ _ Hrun HT)
      as [[]|(k & item & Hi & Hval)].
    exact (Hno k item Hi Hval).
  - apply in_map_iff in Hin as ((T & l) & Hfile & Hin). simpl in Hfile.
    injection Hfile as Hname _. now apply hash_file_name_is_not_status_file in Hname.
Qed.



Hypothesis fetch_stable : stable fetch.


End RunOnDisk.

(** ** The runs of the specification's scenarios *)

(** First scenario of the specification: one entry, no cache. *)
Example first_run :
  main always_ok (Some (JObj [("k", p1)])) None
  = Some (Outputs (Some (JObj [("a1", p1_record)]))
                  [("player", [("k", p1)])]
                  [("player", [sample_md5 ++ " p1"])]
                  [p1_request (Responded 200 (Some sample_md5))]).
Proof. reflexivity. Qed.

(** Second scenario: the same catalog with the cache of the first run. *)
Example second_run :
  main always_ok (Some (JObj [("k", p1)])) (Some (JObj [("a1", p1_record)]))
  = Some (Outputs None [("player", [("k", p1)])]
                  [("player", [sample_md5 ++ " p1"])] []).
Proof. reflexivity. Qed.

Example first_run_files :
  option_map written_files (main always_ok (Some (JObj [("k", p1)])) None)
  = Some [("status_cache.json", Json (JObj [("a1", p1_record)]));
          ("player.json", Json (JObj [("k", p1)]));
          ("player_hash.txt", Text (sample_md5 ++ " p1"))].
Proof. reflexivity. Qed.

Example get_singular_name_samples :
  map get_singular_name ["players"; "skins"; "unknown"; "boss"; "s"]
  = ["player"; "skin"; "unknown"; "bos"; EmptyString].
Proof. reflexivity. Qed.

(** C1 as the specification words it fails: the archive of the entry is
    refused with status 404, and the record of the entry is in the player
    bucket that is written to [player.json]. *)
Lemma failed_download_record_is_bucketed :
  exists out,
    main always_404 (Some (JObj [("k", p1)])) None = Some out /\
    requested out = [p1_request (Responded 404 None)] /\
    failed (Responded 404 None) = true /\
    dict_get "player" (saved_json out) = Some [("k", p1)] /\
    dict_get "player" (saved_hash out) = Some [].
Proof. eexists. split; [reflexivity|]. repeat split. Qed.

(** A directory where a file under a directory that is not there cannot be
    opened: with the type [a/b] the script writes the status file and
    raises at line 139. *)
Example slash_in_type_raises :
  run always_ok (fun name => negb (has_char "/"%char name))
    (Some (JObj [("k", sample_item "a/b" "p1" "a1" "t1")])) []
  = Ending [("status_cache.json", Json (JObj [("a1", p1_record)]))]
           [("status_cache.json", Json (JObj [("a1", p1_record)]))]
           false.
Proof. vm_compute. reflexivity. Qed.

(** A run that raises after a download went through saves no cache: the
    second item is a number, on which [.get] raises. *)
Example aborted_run_saves_nothing :
  (exists st, process_entry always_ok (initial None) "k" p1 = Some st /\
              requested (save_outputs st) = [p1_request (Responded 200 (Some sample_md5))] /\
              process_entry always_ok st "bad" (JNum 3) = None) /\
  run always_ok any_file (Some (JObj [("k", p1); ("bad", JNum 3)])) []
  = Ending [] [] false.
Proof.
  split; [|vm_compute; reflexivity].
  eexists. split; [vm_compute; reflexivity|]. split; vm_compute; reflexivity.
Qed.

(** A download that went through is of no avail when the status file
    cannot be opened for writing: line 131 raises. *)
Example read_only_status_file :
  run always_ok (fun name => negb (String.eqb name STATUS_FILE))
    (Some (JObj [("k", p1)])) []
  = Ending [] [] false.
Proof. vm_compute. reflexivity. Qed.


Example shared_attachment_second_run :
  option_map (fun out => (saved_cache out, map entry_key (requested out)))
    (main always_ok (Some (JObj shared_attachment))
       (Some (JObj [("a1", JObj [("timestamp", JStr "t2"); ("md5", JStr sample_md5);
                                 ("id", JStr "p2")])])))
  = Some (Some (JObj [("a1", JObj [("timestamp", JStr "t2"); ("md5", JStr sample_md5);
                                   ("id", JStr "p2")])]),
          ["k1"; "k2"]).
Proof. reflexivity. Qed.


(** The same happens on a catalog with the type [status_caches]: the first
    run leaves the bucket of the type where the second looks for the cache. *)
Example status_type_is_not_idempotent :
  returned (run always_ok any_file (Some (JObj status_type)) []) = true /\
  ~ second_run_is_silent always_ok any_file status_type [].
Proof.
  split; [vm_compute; reflexivity|]. intros (_ & Hnot & _). apply Hnot.
  vm_compute. left. reflexivity.
Qed.

(** ** The theorems at the scenarios *)

Lemma scenario_keys_distinct : NoDup (keys [("k", p1)]).
Proof. apply nodupb_NoDup. reflexivity. Defined.

Lemma falsy_ids_are_skipped_witness :
  process_entry always_ok (initial None) "k"
    (sample_item "players" EmptyString "a1" "t1")
  = Some (initial None).
Proof.
  apply (falsy_ids_are_skipped always_ok (initial None) "k"
           (sample_item "players" EmptyString "a1" "t1")
           [("type", JStr "players"); ("id", JStr EmptyString)]
           [("attachment_id", JStr "a1"); ("timestamp", JStr "t1")]).
  - reflexivity.
  - reflexivity.
  - left. reflexivity.
Defined.

Lemma untyped_entry_goes_to_unknown_witness :
  exists f st',
    extract untyped = Some f /\
    process_entry always_ok (initial None) "k" untyped = Some st' /\
    singular_of f = Some "unknown" /\
    dict_get "k" (entries_of "unknown" st') = Some untyped /\
    forall T, T <> "unknown" ->
      entries_of T st' = entries_of T (initial None) /\
      lines_of T st' = lines_of T (initial None).
Proof.
  eexists. eexists. split; [reflexivity|]. split; [reflexivity|].
  eapply (untyped_entry_goes_to_unknown always_ok (initial None) "k" untyped);
    reflexivity.
Defined.

Lemma failed_download_leaves_cache_witness :
  exists st',
    process_entry always_404 (initial None) "k" p1 = Some st' /\
    status_cache st' = status_cache (initial None) /\
    updates_made st' = updates_made (initial None).
Proof.
  eexists. split; [reflexivity|].
  eapply (failed_download_leaves_cache always_404 (initial None) "k" p1);
    reflexivity.
Defined.

Lemma failed_download_keeps_json_record_witness :
  exists st' f T,
    process_entry always_404 (initial None) "k" p1 = Some st' /\
    extract p1 = Some f /\ missing_ids f = false /\ singular_of f = Some T /\
    p1_request (Responded 404 None) = attempt always_404 (initial None) "k" f /\
    dict_get "k" (entries_of T st') = Some p1 /\
    (forall T', lines_of T' st' = lines_of T' (initial None)) /\
    status_cache st' = status_cache (initial None).
Proof.
  eexists.
  destruct (failed_download_keeps_json_record always_404 (initial None) "k" p1 _
              (p1_request (Responded 404 None)) (initial_aligned None)
              eq_refl eq_refl eq_refl) as (f & T & H).
  exists f, T. split; [reflexivity | exact H].
Defined.

Lemma record_without_md5_gives_no_line_witness :
  exists st',
    process_entry always_ok (State bare_cache [] [] false []) "k" p1 = Some st' /\
    downloads st' = [] /\ status_cache st' = bare_cache /\
    updates_made st' = false /\
    (forall T', lines_of T' st' = []) /\
    dict_get "k" (entries_of "player" st') = Some p1.
Proof.
  apply (record_without_md5_gives_no_line always_ok (State bare_cache [] [] false [])
           "k" p1 (Fields (JStr "players") (JStr "p1") (JStr "a1") (JStr "t1"))
           "player" [("a1", JObj [("timestamp", JStr "t1")])]
           [("timestamp", JStr "t1")] (JStr "t1")); reflexivity.
Defined.

Lemma download_iff_no_record_or_new_timestamp_witness :
  (exists st',
     process_entry always_ok (State (JObj [("a1", p1_record)]) [] [] false []) "k" p1
     = Some st' /\
     downloads st' = [] /\
     status_cache st' = JObj [("a1", p1_record)] /\
     lines_of "player" st' = ["d41d8cd98f00b204e9800998ecf8427e p1"]) /\
  (exists st',
     process_entry always_ok (State (JObj [("a1", p1_record)]) [] [] false []) "k" p1_newer
     = Some st' /\
     downloads st' = [p1_request (Responded 200 (Some sample_md5))]) /\
  (exists st',
     process_entry always_ok (initial None) "k" p1 = Some st' /\
     downloads st' = [p1_request (Responded 200 (Some sample_md5))]).
Proof.
  split; [|split].
  - eexists. split; [reflexivity|].
    destruct (download_iff_no_record_or_new_timestamp always_ok
                (State (JObj [("a1", p1_record)]) [] [] false []) "k" p1
                (Fields (JStr "players") (JStr "p1") (JStr "a1") (JStr "t1")) _
                eq_refl eq_refl eq_refl eq_refl) as (m & T & Hm & HT & _ & Hhit).
    injection Hm as <-. injection HT as <-.
    apply (Hhit [("timestamp", JStr "t1"); ("md5", JStr sample_md5); ("id", JStr "p1")]);
      [reflexivity | discriminate | reflexivity].
  - eexists. split; [reflexivity|].
    destruct (download_iff_no_record_or_new_timestamp always_ok
                (State (JObj [("a1", p1_record)]) [] [] false []) "k" p1_newer
                (Fields (JStr "players") (JStr "p1") (JStr "a1") (JStr "t2")) _
                eq_refl eq_refl eq_refl eq_refl) as (m & T & Hm & _ & [_ Hmade] & _).
    injection Hm as <-. apply Hmade. right.
    exists [("timestamp", JStr "t1"); ("md5", JStr sample_md5); ("id", JStr "p1")].
    split; [reflexivity|]. split; [discriminate | reflexivity].
  - eexists. split; [reflexivity|].
    destruct (download_iff_no_record_or_new_timestamp always_ok (initial None) "k" p1
                (Fields (JStr "players") (JStr "p1") (JStr "a1") (JStr "t1")) _
                (initial_aligned None) eq_refl eq_refl eq_refl)
      as (m & T & Hm & _ & [_ Hmade] & _).
    injection Hm as <-. apply Hmade. left. exact I.
Defined.

Lemma p1_types : no_status_type [("k", p1)].
Proof.
  intros k item [H|[]] (f & Hx & _ & HT). injection H as <- <-.
  injection Hx as <-. discriminate HT.
Defined.


Lemma buckets_partition_valid_entries_witness :
  exists out,
    main always_ok (Some (JObj [("k", p1)])) None = Some out /\
    exists bucket,
      dict_get "player" (saved_json out) = Some bucket /\
      dict_get "k" bucket = Some p1.
Proof.
  eexists. split; [vm_compute; reflexivity|].
  destruct (buckets_partition_valid_entries always_ok [("k", p1)] None _
              scenario_keys_distinct eq_refl) as (_ & _ & Hvalid & _).
  destruct (Hvalid "k" p1 (Fields (JStr "players") (JStr "p1") (JStr "a1") (JStr "t1")))
    as (T & bucket & HT & Hb & Hk); [left; reflexivity | reflexivity | reflexivity |].
  injection HT as <-. exists bucket. split; assumption.
Defined.

Lemma hash_lines_need_a_hash_witness :
  exists out,
    main always_ok (Some (JObj [("k", p1)])) None = Some out /\
    exists lines,
      dict_get "player" (saved_hash out) = Some lines /\ List.length lines <= 1.
Proof.
  eexists. split; [reflexivity|].
  destruct (hash_lines_need_a_hash always_ok [("k", p1)] None _
              scenario_keys_distinct eq_refl) as (Hcount & _).
  apply (Hcount "player" [("k", p1)]). reflexivity.
Defined.

Lemma shared_archive_agrees : agreeing_timestamps always_ok shared_archive.
Proof.
  intros k item f k' item' f' [H|[H|[]]] [H'|[H'|[]]] Hx _ Hx' _ _;
    injection H as <- <-; injection H' as <- <-;
    injection Hx as <-; injection Hx' as <-; left; reflexivity.
Defined.

Lemma shared_archive_types : no_status_type shared_archive.
Proof.
  intros k item [H|[H|[]]] (f & Hx & _ & HT); injection H as <- <-;
    injection Hx as <-; discriminate HT.
Defined.

Lemma unserved_attachment_agrees : agreeing_timestamps always_404 shared_attachment.
Proof. intros k item f k' item' f' _ _ _ _ _ _ _. right. reflexivity. Defined.

Lemma shared_attachment_types : no_status_type shared_attachment.
Proof.
  intros k item [H|[H|[]]] (f & Hx & _ & HT); injection H as <- <-;
    injection Hx as <-; discriminate HT.
Defined.


(** ** More properties at the scenarios *)

Lemma calculate_md5_is_digest_of_file_witness :
  calculate_md5 (list Byte.byte) [] (@app Byte.byte) kept_bytes_hexdigest
    [Byte.x70; Byte.x31]
  = "p1".
Proof.
  destruct (calculate_md5_is_digest_of_file (list Byte.byte) [] (@app Byte.byte)
              kept_bytes_hexdigest
              (fun h a b => eq_sym (app_assoc h a b)) (@app_nil_r Byte.byte)
              [Byte.x70; Byte.x31]) as [H _].
  rewrite H. reflexivity.
Defined.

Lemma requests_only_for_valid_entries_witness :
  exists out,
    main always_ok (Some (JObj [("k", p1)])) None = Some out /\
    NoDup (map entry_key (requested out)).
Proof.
  eexists. split; [vm_compute; reflexivity|].
  apply (requests_only_for_valid_entries always_ok [("k", p1)] None _
           scenario_keys_distinct eq_refl).
Defined.

Lemma bucket_keys_follow_catalog_order_witness :
  exists out,
    main always_ok (Some (JObj [("k", p1)])) None = Some out /\
    keys [("k", p1)] = map fst (filter (has_type "player") [("k", p1)]).
Proof.
  eexists. split; [vm_compute; reflexivity|].
  apply (bucket_keys_follow_catalog_order always_ok [("k", p1)] None _ "player"
           [("k", p1)] scenario_keys_distinct eq_refl eq_refl).
Defined.

Lemma every_type_has_both_files_witness :
  exists out,
    main always_404 (Some (JObj [("k", p1)])) None = Some out /\
    keys (saved_json out) = keys (saved_hash out).
Proof.
  eexists. split; [vm_compute; reflexivity|].
  apply (every_type_has_both_files always_404 [("k", p1)] None _
           scenario_keys_distinct eq_refl).
Defined.

Lemma json_buckets_depend_on_catalog_only_witness :
  exists out out',
    main always_ok (Some (JObj [("k", p1)])) None = Some out /\
    main always_404 (Some (JObj [("k", p1)])) (Some bare_cache) = Some out' /\
    saved_json out = saved_json out'.
Proof.
  eexists. eexists. split; [vm_compute; reflexivity|]. split; [vm_compute; reflexivity|].
  apply (json_buckets_depend_on_catalog_only always_ok always_404 [("k", p1)]
           None (Some bare_cache) _ _ eq_refl eq_refl).
Defined.

Lemma cache_records_are_never_deleted_witness :
  exists m new,
    JObj [("a1", p1_record)] = JObj m /\
    keys m = (keys (@nil (string * json)) ++ new)%list /\
    (forall a, In a new -> In a (attachment_keys [("k", p1)])) /\
    (forall a, ~ In a (attachment_keys [("k", p1)]) ->
               dict_get a m = dict_get a (@nil (string * json))).
Proof.
  apply (cache_records_are_never_deleted always_ok [("k", p1)] None
           (Outputs (Some (JObj [("a1", p1_record)]))
                    [("player", [("k", p1)])]
                    [("player", [sample_md5 ++ " p1"])]
                    [p1_request (Responded 200 (Some sample_md5))])
           [] (JObj [("a1", p1_record)])); reflexivity.
Defined.

Lemma downloaded_record_is_fresh_witness :
  exists st' f m,
    process_entry always_ok (initial None) "k" p1 = Some st' /\
    extract p1 = Some f /\
    status_cache st' = JObj m /\
    dict_get (py_str (attachment_id f)) m = Some p1_record /\
    updates_made st' = true /\
    needs_download p1_record (timestamp f) = Some false.
Proof.
  eexists.
  destruct (downloaded_record_is_fresh always_ok (initial None) "k" p1 _
              (p1_request (Responded 200 (Some sample_md5))) sample_md5
              eq_refl eq_refl eq_refl) as (f & m & Hx & H).
  exists f, m. split; [reflexivity|]. split; [exact Hx|].
  injection Hx as <-. exact H.
Defined.


Lemma fully_cached_run_is_offline_witness :
  exists out,
    main always_404 (Some (JObj [("k", p1)])) (Some (JObj [("a1", p1_record)])) = Some out /\
    requested out = [] /\ saved_cache out = None.
Proof.
  eexists. split; [vm_compute; reflexivity|].
  apply (fully_cached_run_is_offline always_404 [("k", p1)]
           (Some (JObj [("a1", p1_record)])) _ eq_refl).
  intros k item f [H|[]] Hx Hv. injection H as <- <-. injection Hx as <-.
  exists p1_record, (JStr "t1"). repeat split.
Defined.

Lemma hash_lines_grow_at_the_end_witness :
  exists st more,
    process_all always_ok (initial None) [("k", p1)] = Some st /\
    [sample_md5 ++ " p1"] = (lines_of "player" st ++ more)%list /\
    List.length more <= 0.
Proof.
  apply (hash_lines_grow_at_the_end always_ok [("k", p1)] [] None
           (Outputs (Some (JObj [("a1", p1_record)]))
                    [("player", [("k", p1)])]
                    [("player", [sample_md5 ++ " p1"])]
                    [p1_request (Responded 200 (Some sample_md5))])
           "player" eq_refl).
Defined.

Lemma type_file_replaces_status_file_iff_witness :
  exists out,
    main always_ok
      (Some (JObj [("k", sample_item "status_caches" "p1" "a1" "t1")])) None = Some out /\
    In STATUS_FILE (map fst (output_files out)).
Proof.
  eexists. split; [vm_compute; reflexivity|].
  apply (type_file_replaces_status_file_iff always_ok
           [("k", sample_item "status_caches" "p1" "a1" "t1")] None _
           (nodupb_NoDup [ "k" ] eq_refl) eq_refl).
  exists "k", (sample_item "status_caches" "p1" "a1" "t1").
  split; [left; reflexivity|].
  exists (Fields (JStr "status_caches") (JStr "p1") (JStr "a1") (JStr "t1")).
  repeat split.
Defined.
